(** * rosca-app: the measurement and classification core of [main.py]

    A shallow embedding of [evitar_cruzamento], [fator_decisao], the
    numeric tail of [medir_diametro] and the answer of [analisar], with the
    properties the specification states about them and further properties
    the code shows.

    Numbers.  CPython evaluates the program on IEEE 754 binary64 floats and
    the specification speaks of reals.  The functions are therefore written
    once over an interface of arithmetic operations ([Numero]) and read at
    two instances: [float], Rocq's primitive binary64 numbers, which is what
    the interpreter computes, and [Q], exact rational arithmetic, which is
    the idealised reading of the specification.  Decimal literals of the
    source are kept as the decimal fractions they are written as and are
    converted by [literal] (correctly rounded for binary64).  What is
    proved of binary64 for every input rests on the definition of rounding
    to nearest in [SpecFloat] (section [Arredondamento]); a binary64 number
    is read as the rational it stands for by [valor].

    Exceptions.  A Python function either returns a value or raises; this is
    the type [resultado], threaded through the code with [x <- e ;; k]. *)

From Stdlib Require Import Floats ZArith QArith Qabs Qround Qpower Qfield.
From Stdlib Require Import Lqa Lia.
From Stdlib Require Import List String Ascii Bool Permutation Sorted.
From Stdlib Require Import DecimalString DecimalN.
Import ListNotations.

Set Warnings "-inexact-float".

Local Open Scope string_scope.
Local Open Scope list_scope.

(* ================================================================== *)
(** ** Exceptions *)

Inductive excecao : Type :=
| IndexError
| KeyError
| ZeroDivisionError.

Inductive resultado (T : Type) : Type :=
| Retorna (v : T)
| Levanta (e : excecao).

Arguments Retorna {T} v.
Arguments Levanta {T} e.

Definition liga {S T : Type} (r : resultado S) (k : S -> resultado T)
  : resultado T :=
  match r with
  | Retorna v => k v
  | Levanta e => Levanta e
  end.

Notation "x <- e ;; k" := (liga e (fun x => k))
  (at level 61, e at next level, right associativity).
Notation "' p <- e ;; k" := (liga e (fun x => let p := x in k))
  (at level 61, p pattern, e at next level, right associativity).

(** A [for] loop whose body updates the loop state [s] and may raise. *)
Fixpoint para_cada {S T : Type} (corpo : S -> T -> resultado S)
  (s : S) (l : list T) : resultado S :=
  match l with
  | [] => Retorna s
  | x :: resto => s' <- corpo s x ;; para_cada corpo s' resto
  end.

(** [l[0]] and [l[-1]]: both raise [IndexError] on the empty list. *)
Definition primeiro_item {T : Type} (l : list T) : resultado T :=
  match l with
  | [] => Levanta IndexError
  | x :: _ => Retorna x
  end.

Definition ultimo_item {T : Type} (l : list T) : resultado T :=
  primeiro_item (rev l).

(* ================================================================== *)
(** ** The arithmetic the code runs on *)

Class Numero (A : Type) : Type := {
  literal : Q -> A;          (* a decimal literal of the source *)
  de_inteiro : Z -> A;       (* an [int] operand of a float operation *)
  soma : A -> A -> A;
  subtrai : A -> A -> A;
  multiplica : A -> A -> A;
  divide : A -> A -> A;      (* the quotient, for a non-zero divisor *)
  absoluto : A -> A;
  menor : A -> A -> bool;    (* [<]  *)
  menor_igual : A -> A -> bool   (* [<=] *)
}.

(** The binary64 number nearest to an integer (ties to even), as the
    conversion of an [int] operand does.  (CPython raises [OverflowError]
    for an [int] beyond the binary64 range; the integers converted here are
    pixel widths, [numpy.int64] values and the digits of literals.) *)
Definition float_de_Z (z : Z) : float :=
  SF2Prim (binary_normalize prec emax z 0 false).

(** Binary64.  A decimal literal [n/10^k] is read as the correctly rounded
    quotient of two exactly representable integers, which is the binary64
    number nearest to the decimal fraction, the value [float("...")] has. *)
#[export] Instance Binary64 : Numero float := {|
  literal q := PrimFloat.div (float_de_Z (Qnum q)) (float_de_Z (Zpos (Qden q)));
  de_inteiro := float_de_Z;
  soma := PrimFloat.add;
  subtrai := PrimFloat.sub;
  multiplica := PrimFloat.mul;
  divide := PrimFloat.div;
  absoluto := PrimFloat.abs;
  menor := PrimFloat.ltb;
  menor_igual := PrimFloat.leb
|}.

(** Exact rational arithmetic. *)
#[export] Instance Exato : Numero Q := {|
  literal q := q;
  de_inteiro := inject_Z;
  soma := Qplus;
  subtrai := Qminus;
  multiplica := Qmult;
  divide := Qdiv;
  absoluto := Qabs;
  menor x y := negb (Qle_bool y x);
  menor_igual := Qle_bool
|}.

(* ================================================================== *)
(** ** [evitar_cruzamento] *)

Section Cruzamento.

Context {A : Type} {N : Numero A}.

(** [sorted]: a stable ascending sort that compares with [<] only.  On a
    list whose elements [<] orders (rationals, binary64 numbers without
    NaN) every stable sort returns this list, and so does CPython's.  On a
    list with a NaN the result of CPython's sort depends on the comparisons
    its algorithm happens to make, which this definition does not follow:
    what is proved of [sorted] on binary64 numbers is stated for lists
    without NaN. *)
Fixpoint insere (x : A) (l : list A) : list A :=
  match l with
  | [] => [x]
  | y :: resto => if menor y x then y :: insere x resto else x :: y :: resto
  end.

Definition sorted (l : list A) : list A := fold_right insere [] l.

(** The body of the loop of [evitar_cruzamento]. *)
Definition ajusta (distancia_minima : A) (medidas_ajustadas : list A)
  (medida : A) : resultado (list A) :=
  ultima <- ultimo_item medidas_ajustadas ;;
  let medida :=
    if menor (subtrai medida ultima) distancia_minima
    then soma ultima distancia_minima
    else medida in
  Retorna (medidas_ajustadas ++ [medida]).

Definition evitar_cruzamento (medidas : list A) (distancia_minima : A)
  : resultado (list A) :=
  let medidas_ordenadas := sorted medidas in
  m0 <- primeiro_item medidas_ordenadas ;;
  let medidas_ajustadas := [m0] in
  para_cada (ajusta distancia_minima) medidas_ajustadas
    (skipn 1 medidas_ordenadas).

End Cruzamento.

(** The default value of the parameter [distancia_minima]. *)
Definition distancia_minima_padrao : Q := 0.2%Q.

(* ================================================================== *)
(** ** [TABELA_ROSCAS] *)

(** A dictionary of the source is the list of its items in insertion order,
    which is the order [items()] yields them in. *)
Definition dicionario (V : Type) : Type := list (string * V).

Fixpoint obtem {V : Type} (d : dicionario V) (chave : string) : resultado V :=
  match d with
  | [] => Levanta KeyError
  | (k, v) :: resto => if String.eqb k chave then Retorna v else obtem resto chave
  end.

Definition TABELA_ROSCAS : dicionario (dicionario (dicionario Q)) :=
  [ ("BSP",
      [ ("externa", [("1/8", 9.7); ("1/4", 13.2); ("3/8", 16.7);
                     ("1/2", 20.9); ("3/4", 26.4); ("1", 33.2)]);
        ("interna", [("1/8", 8.5); ("1/4", 11.8); ("3/8", 15.3);
                     ("1/2", 19.0); ("3/4", 24.5); ("1", 30.3)]) ]);
    ("NPT",
      [ ("externa", [("1/8", 10.2); ("1/4", 13.7); ("3/8", 17.1);
                     ("1/2", 21.3); ("3/4", 26.7); ("1", 33.5)]);
        ("interna", [("1/8", 8.7); ("1/4", 11.9); ("3/8", 15.5);
                     ("1/2", 19.3); ("3/4", 24.9); ("1", 30.8)]) ]);
    ("UNF",
      [ ("externa", [("1/4", 6.35); ("3/8", 9.53); ("1/2", 12.7);
                     ("3/4", 19.05); ("1", 25.4)]);
        ("interna", [("1/4", 5.8); ("3/8", 8.8); ("1/2", 12.0);
                     ("3/4", 18.3); ("1", 24.5)]) ]) ]%Q.

(* ================================================================== *)
(** ** [fator_decisao] *)

Section Decisao.

Context {A : Type} {N : Numero A}.

(** A candidate [(norma, bitola, diametro_ref)]. *)
Definition candidato : Type := string * string * A.

(** The value [fator_decisao] returns:
    [(norma, bitola, diametro_ref, confianca, tipo)], the first three
    [None] when nothing matches. *)
Definition decisao : Type :=
  option string * option string * option A * A * string.

(** The test of line 55. *)
Definition qualifica (diametro_medido diametro_ref : A) : bool :=
  menor_igual (absoluto (subtrai diametro_medido diametro_ref)) (literal 0.3%Q).

(** The inner loop, over the sizes of one standard. *)
Definition examina_bitola (diametro_medido : A) (norma : string)
  (candidatos : list candidato) (item : string * Q)
  : resultado (list candidato) :=
  let '(bitola, diametro_ref) := item in
  let diametro_ref := literal diametro_ref in
  Retorna (if qualifica diametro_medido diametro_ref
           then candidatos ++ [(norma, bitola, diametro_ref)]
           else candidatos).

(** The outer loop, over the standards. *)
Definition examina_norma (diametro_medido : A) (tipo : string)
  (candidatos : list candidato) (item : string * dicionario (dicionario Q))
  : resultado (list candidato) :=
  let '(norma, dados) := item in
  bitolas <- obtem dados tipo ;;
  para_cada (examina_bitola diametro_medido norma) candidatos bitolas.

Definition coleta_candidatos (diametro_medido : A) (tipo : string)
  : resultado (list candidato) :=
  para_cada (examina_norma diametro_medido tipo) [] TABELA_ROSCAS.

Definition fator_decisao (diametro_medido : A) (interna : bool)
  : resultado decisao :=
  let tipo := if interna then "interna" else "externa" in
  candidatos <- coleta_candidatos diametro_medido tipo ;;
  match candidatos with
  | [] => Retorna (None, None, None, literal 0.0%Q, tipo)
  | _ :: _ =>
      let medidas := map (fun c : candidato => snd c) candidatos in
      _ <- evitar_cruzamento medidas (literal distancia_minima_padrao) ;;
      '(norma, bitola, diametro_ref) <- primeiro_item candidatos ;;
      Retorna (Some norma, Some bitola, Some diametro_ref, literal 95.0%Q, tipo)
  end.

End Decisao.

(** The catalogue for one bore kind in declaration order: the standards in
    the order the table declares them, the sizes of each standard in the
    order its sub-table declares them. *)
Definition entradas_da_norma (tipo : string)
  (item : string * dicionario (dicionario Q)) : list (string * string * Q) :=
  let '(norma, dados) := item in
  match obtem dados tipo with
  | Retorna bitolas =>
      map (fun entrada : string * Q => (norma, fst entrada, snd entrada))
        bitolas
  | Levanta _ => []
  end.

Definition catalogo (tipo : string) : list (string * string * Q) :=
  flat_map (entradas_da_norma tipo) TABELA_ROSCAS.

Section Resolvedor.

Context {A : Type} {N : Numero A}.

Definition tipo_de (interna : bool) : string :=
  if interna then "interna" else "externa".

(** An entry of the catalogue qualifies for a measured diameter. *)
Definition entrada_qualifica (diametro_medido : A)
  (entrada : string * string * Q) : bool :=
  qualifica diametro_medido (literal (snd entrada)).

Definition como_candidato (entrada : string * string * Q) : candidato (A:=A) :=
  (fst (fst entrada), snd (fst entrada), literal (snd entrada)).

(** The qualifying entries, in catalogue order. *)
Definition qualificados (diametro_medido : A) (tipo : string)
  : list (candidato (A:=A)) :=
  map como_candidato (filter (entrada_qualifica diametro_medido) (catalogo tipo)).

(** The resolver as the specification words it, with the collision-avoidance
    pass removed: the first qualifying entry in catalogue order with the
    fixed confidence 95.0, or the no-match value with confidence 0.0. *)
Definition resolvedor_sem_ajuste (diametro_medido : A) (interna : bool)
  : resultado (decisao (A:=A)) :=
  let tipo := tipo_de interna in
  match find (entrada_qualifica diametro_medido) (catalogo tipo) with
  | Some (norma, bitola, diametro_ref) =>
      Retorna (Some norma, Some bitola, Some (literal diametro_ref),
               literal 95.0%Q, tipo)
  | None => Retorna (None, None, None, literal 0.0%Q, tipo)
  end.

End Resolvedor.

(* ================================================================== *)
(** ** [medir_diametro]

    The OpenCV calls are outside the embedding.  What they hand to the
    arithmetic of the function is its input here: the result of
    [cv2.HoughCircles] after rounding, which is [None] when no circle is
    found and otherwise an array with at least one row [(x, y, r)], and the
    bounding rectangles [(x, y, w, h)] of the contours [cv2.findContours]
    returns.  Drawing and writing the debug image do not touch the values
    the function computes with. *)

Record circulo : Type := { centro_x : Z; centro_y : Z; raio : Z }.

Record retangulo : Type := { rx : Z; ry : Z; w : Z; h : Z }.

(** [numpy.int64] arithmetic wraps around. *)
Definition int64 (z : Z) : Z := ((z + 2 ^ 63) mod 2 ^ 64 - 2 ^ 63)%Z.

(** [max(circles[:, 2])] on an array with first row [c] and further rows
    [cs]. *)
Definition maior_raio (c : circulo) (cs : list circulo) : Z :=
  fold_left Z.max (map raio cs) (raio c).

(** Lines 78-81: [diametro_px]. *)
Definition diametro_px (circles : option (circulo * list circulo)) : Z :=
  match circles with
  | None => (-1)%Z
  | Some (c, cs) => int64 (maior_raio c cs * 2)
  end.

(** Line 92: the plausibility filter. *)
Definition plausivel (r : retangulo) : bool :=
  ((80 <? w r)%Z && (w r <? 1200)%Z) && ((40 <? h r)%Z && (h r <? 800)%Z).

(** Lines 89-93: [largura_cartao_px]. *)
Definition largura_cartao_px (contours : list retangulo) : Z :=
  fold_left
    (fun largura cnt => if plausivel cnt then Z.max largura (w cnt) else largura)
    contours 0%Z.

Section Medicao.

Context {A : Type} {N : Numero A}.

(** [x / n] for an [int] divisor: raises on zero. *)
Definition divisao (x : A) (n : Z) : resultado A :=
  if (n =? 0)%Z then Levanta ZeroDivisionError
  else Retorna (divide x (de_inteiro n)).

(** Line 103: the scale in millimetres per pixel. *)
Definition escala (largura_cartao_px : Z) : resultado A :=
  divisao (literal 86.0%Q) largura_cartao_px.

(** Lines 100-104.  The sentinel [-1] is an [int] in the source; it is
    compared with [0] only, which gives the same answer for [-1.0]. *)
Definition medir_diametro (circles : option (circulo * list circulo))
  (contours : list retangulo) : resultado A :=
  let diametro_px := diametro_px circles in
  let largura_cartao_px := largura_cartao_px contours in
  if match circles with None => true | Some _ => false end
     || (largura_cartao_px =? 0)%Z
  then Retorna (de_inteiro (-1))
  else
    escala <- escala largura_cartao_px ;;
    Retorna (multiplica (de_inteiro diametro_px) escala).

(** ** [analisar] *)

(** The two 400 answers:
    ["Nao foi possivel identificar a rosca"] and
    ["Nenhuma correspondencia encontrada"]. *)
Inductive erro_de_analise : Type :=
| NaoFoiPossivelIdentificar
| NenhumaCorrespondencia.

Inductive resposta : Type :=
| Ok (norma bitola : string) (diametro_medido confianca : A)
| Erro400 (erro : erro_de_analise)
| Erro500 (e : excecao).

(** The function after the upload is stored, on the values the image
    processing found. *)
Definition analisar (circles : option (circulo * list circulo))
  (contours : list retangulo) (interna : bool) : resposta :=
  let corpo :=
    diametro_medido <- medir_diametro circles contours ;;
    if menor_igual diametro_medido (de_inteiro 0)
    then Retorna (Erro400 NaoFoiPossivelIdentificar)
    else
      '(norma, bitola, diametro_ref, confianca, tipo) <-
        fator_decisao diametro_medido interna ;;
      match norma, bitola with
      | Some norma, Some bitola =>
          if String.eqb norma "" then Retorna (Erro400 NenhumaCorrespondencia)
          else Retorna (Ok norma bitola diametro_medido confianca)
      | _, _ => Retorna (Erro400 NenhumaCorrespondencia)
      end in
  match corpo with
  | Retorna r => r
  | Levanta e => Erro500 e
  end.

End Medicao.

(* ================================================================== *)
(** ** The form field and the JSON answer of [analisar]

    [analisar] above keeps what the answer is decided by.  The definitions
    below follow lines 123-151 to the answer itself: the form field
    [interna] as the text it arrives as, the status code and the content
    handed to [JSONResponse]. *)

(** [str.lower] on the letters A-Z.  A byte outside that range is left as
    it is: the code only compares the result with ["true"], and no
    character outside A-Z is lowered to one of the letters of that word. *)
Definition minuscula (c : ascii) : ascii :=
  let n := nat_of_ascii c in
  if ((65 <=? n) && (n <=? 90))%nat then ascii_of_nat (n + 32) else c.

Fixpoint lower (s : string) : string :=
  match s with
  | EmptyString => EmptyString
  | String c resto => String (minuscula c) (lower resto)
  end.

(** [interna.lower() == "true"]. *)
Definition e_interna (interna : string) : bool :=
  String.eqb (lower interna) "true".

(** The decimal digits of a non-negative integer. *)
Definition digitos (n : Z) : string :=
  NilZero.string_of_uint (N.to_uint (Z.to_N n)).

(** The integer nearest to [q], a tie going to the even one. *)
Definition arredonda (q : Q) : Z :=
  let baixo := Qfloor q in
  let resto := (q - inject_Z baixo)%Q in
  match (resto ?= 1 # 2)%Q with
  | Lt => baixo
  | Gt => (baixo + 1)%Z
  | Eq => if Z.even baixo then baixo else (baixo + 1)%Z
  end.

Fixpoint zeros (n : nat) : string :=
  match n with
  | O => EmptyString
  | S n' => String "0" (zeros n')
  end.

Definition preenche (casas : nat) (s : string) : string :=
  (zeros (casas - String.length s) ++ s)%string.

(** A non-negative rational with [casas] digits after the point. *)
Definition fixo (casas : nat) (q : Q) : string :=
  let escala := (10 ^ Z.of_nat casas)%Z in
  let n := arredonda (q * inject_Z escala) in
  let inteiro := digitos (n / escala) in
  match casas with
  | O => inteiro
  | S _ => (inteiro ++ "." ++ preenche casas (digitos (n mod escala)))%string
  end.

(** The number a finite binary64 value with mantissa [m] and exponent [e]
    stands for, up to its sign. *)
Definition valor_finito (m : positive) (e : Z) : Q :=
  (inject_Z (Zpos m) * Qpower 2 e)%Q.

Definition sinal (s : bool) : string := if s then "-" else "".

(** [f"{x:.<casas>f}"]: the exact value of [x] rounded to [casas] decimals,
    ties to even. *)
Definition formata_fixo (casas : nat) (x : float) : string :=
  match Prim2SF x with
  | S754_nan => "nan"
  | S754_infinity s => (sinal s ++ "inf")%string
  | S754_zero s => (sinal s ++ fixo casas 0)%string
  | S754_finite s m e => (sinal s ++ fixo casas (valor_finito m e))%string
  end.

(** A value of the JSON content: a text, [None], or the text [str(e)] of an
    exception. *)
Inductive valor_json : Type :=
| Texto (s : string)
| Nulo
| Mensagem (e : excecao).

Definition texto_ou_nulo (o : option string) : valor_json :=
  match o with
  | Some s => Texto s
  | None => Nulo
  end.

(** Lines 123-151, on the values the image processing found: the status
    code and the content of the answer. *)
Definition analisar_http (circles : option (circulo * list circulo))
  (contours : list retangulo) (interna : string)
  : Z * dicionario valor_json :=
  let corpo :=
    diametro_medido <- medir_diametro (A:=float) circles contours ;;
    if menor_igual diametro_medido (de_inteiro 0)
    then
      Retorna (400%Z,
               [("erro", Texto "Não foi possível identificar a rosca");
                ("debug", Texto "/static/debug_output.png")])
    else
      '(norma, bitola, diametro_ref, confianca, tipo) <-
        fator_decisao diametro_medido (e_interna interna) ;;
      if match norma with
         | Some n => String.eqb n ""
         | None => true
         end
      then
        Retorna (400%Z,
                 [("erro", Texto "Nenhuma correspondência encontrada");
                  ("debug", Texto "/static/debug_output.png")])
      else
        Retorna (200%Z,
                 [("status", Texto "ok");
                  ("tipo_rosca",
                   Texto (if e_interna interna
                          then "Rosca interna (fêmea)"
                          else "Rosca externa (macho)"));
                  ("diametro_medido_mm",
                   Texto (formata_fixo 2 diametro_medido));
                  ("bitola", texto_ou_nulo bitola);
                  ("norma", texto_ou_nulo norma);
                  ("confianca", Texto (formata_fixo 1 confianca ++ "%"));
                  ("observacao",
                   Texto "Use cartão padrão (86 mm) como referência.");
                  ("debug", Texto "/static/debug_output.png")]) in
  match corpo with
  | Retorna r => r
  | Levanta e => (500%Z, [("erro", Mensagem e)])
  end.

(* ================================================================== *)
(** ** Auxiliary definitions *)

Section Espacadas.

Context {A : Type} {N : Numero A}.

(** The values the loop of [evitar_cruzamento] appends after [ultima]. *)
Fixpoint espacadas (distancia_minima ultima : A) (resto : list A) : list A :=
  match resto with
  | [] => []
  | medida :: resto' =>
      let medida' :=
        if menor (subtrai medida ultima) distancia_minima
        then soma ultima distancia_minima
        else medida in
      medida' :: espacadas distancia_minima medida' resto'
  end.

(** The relation the loop establishes between a value [a] of the result and
    the next one [b]. *)
Definition passo (distancia_minima a b : A) : Prop :=
  b = soma a distancia_minima \/
  menor (subtrai b a) distancia_minima = false.

(** What the loop of [evitar_cruzamento] makes of the sorted values
    [entradas] that follow the value [ultima]: a value whose computed
    difference to its predecessor in the result is below the minimum
    distance is replaced by that predecessor plus the minimum distance, and
    any other value is kept as it is. *)
Fixpoint ajustadas (distancia_minima ultima : A) (entradas saidas : list A)
  : Prop :=
  match entradas, saidas with
  | [], [] => True
  | medida :: entradas', saida :: saidas' =>
      (menor (subtrai medida ultima) distancia_minima = true /\
       saida = soma ultima distancia_minima
       \/
       menor (subtrai medida ultima) distancia_minima = false /\
       saida = medida) /\
      ajustadas distancia_minima saida entradas' saidas'
  | _, _ => False
  end.

End Espacadas.

(** The integers [a], [a + 1], ... [a + n - 1]. *)
Fixpoint faixa (n : nat) (a : Z) : list Z :=
  match n with
  | O => []
  | S n' => a :: faixa n' (a + 1)
  end.

(** In binary64, the scale for twice the width [W] is half the scale for
    [W]. *)
Definition metade_confere (W : Z) : bool :=
  match escala (A:=float) W, escala (A:=float) (2 * W) with
  | Retorna f, Retorna g => PrimFloat.Leibniz.eqb g (PrimFloat.div f 2)
  | _, _ => false
  end.

(** In binary64, for every width in [larguras] and every radius in
    [raios], the diameter for twice the radius is twice the diameter. *)
Definition dobro_confere (raios larguras : list Z) : bool :=
  let pares :=
    map (fun r : Z =>
           (float_de_Z (int64 (2 * r * 2)), float_de_Z (int64 (r * 2))))
      raios in
  forallb
    (fun W : Z =>
       let f := PrimFloat.div (literal 86.0%Q) (float_de_Z W) in
       forallb
         (fun p : float * float =>
            PrimFloat.Leibniz.eqb
              (PrimFloat.mul (fst p) f)
              (PrimFloat.mul 2 (PrimFloat.mul (snd p) f)))
         pares)
    larguras.

(** A binary64 number other than NaN: NaN is the one value [x == x] fails
    on. *)
Definition nao_nan (x : float) : bool := PrimFloat.eqb x x.

(** [TABELA_ROSCAS[norma][tipo][bitola]]. *)
Definition consulta (norma tipo bitola : string) : resultado Q :=
  dados <- obtem TABELA_ROSCAS norma ;;
  bitolas <- obtem dados tipo ;;
  obtem bitolas bitola.

(** In binary64, [fator_decisao] answers the measured diameter [d] with the
    entry. *)
Definition seleciona (interna : bool) (entrada : string * string * Q)
  (d : float) : bool :=
  match fator_decisao d interna with
  | Retorna (Some norma, Some bitola, Some ref, _, _) =>
      String.eqb norma (fst (fst entrada))
      && String.eqb bitola (snd (fst entrada))
      && PrimFloat.Leibniz.eqb ref (literal (snd entrada))
  | _ => false
  end.

(** The entry is the answer for its reference diameter, or for a diameter
    0.25 above or below it. *)
Definition alcancavel (interna : bool) (entrada : string * string * Q)
  : bool :=
  let ref := literal (A:=float) (snd entrada) in
  existsb (seleciona interna entrada)
    [ref; soma ref (literal 0.25%Q); subtrai ref (literal 0.25%Q)].

(** In binary64, for every width in [larguras] and every radius in
    [raios], the measured diameter is above 0. *)
Definition positivo_confere (raios larguras : list Z) : bool :=
  let diametros := map (fun r : Z => float_de_Z (int64 (r * 2))) raios in
  forallb
    (fun W : Z =>
       let f := PrimFloat.div (literal 86.0%Q) (float_de_Z W) in
       forallb
         (fun dpx : float =>
            PrimFloat.ltb (float_de_Z 0) (PrimFloat.mul dpx f))
         diametros)
    larguras.

(** The text of a number with two decimals has two digits after the
    point. *)
Definition duas_casas_confere (fracoes : list Z) : bool :=
  forallb (fun k => (String.length (preenche 2 (digitos k)) =? 2)%nat)
    fracoes.

(* ================================================================== *)
(** ** Binary64 numbers as exact values

    A finite binary64 number is an integer multiple of 2^-1074, the
    smallest positive one.  The definitions below read a number as that
    integer, and as the rational it stands for. *)

(** The exponent of the unit in the last place of the number [n] * 2^-1074,
    counted from -1074: numbers below 2^-1022 have it 0, and the others
    have 53 significant bits. *)
Definition ue (n : Z) : Z := Z.max (Z.log2 n - 52) 0.

(** The value of a binary64 number as a multiple of 2^-1074. *)
Definition escalado (x : spec_float) : Z :=
  match x with
  | S754_finite s m e => cond_Zopp s (Zpos m * 2 ^ (e + 1074))%Z
  | _ => 0%Z
  end.

(** Zero or a finite number. *)
Definition finito (x : spec_float) : bool :=
  match x with
  | S754_zero _ | S754_finite _ _ _ => true
  | _ => false
  end.

(** The number a binary64 value stands for; infinities and NaN stand for
    none. *)
Definition valor_SF (x : spec_float) : option Q :=
  match x with
  | S754_zero _ => Some 0%Q
  | S754_finite s m e =>
      Some (if s then (- valor_finito m e)%Q else valor_finito m e)
  | _ => None
  end.

Definition valor (x : float) : option Q := valor_SF (Prim2SF x).

(** The reference diameter is a positive binary64 number that is at least
    1 and a multiple of 2^-54. *)
Definition referencia_confere (ref : Q) : bool :=
  match Prim2SF (literal (A:=float) ref) with
  | S754_finite false m e =>
      ((-54 <=? e) && (2 ^ 1074 <=? Zpos m * 2 ^ (e + 1074)))%Z
  | _ => false
  end.

(* ================================================================== *)
(** * Properties *)

(** ** The literals of the source, as binary64 numbers *)

Lemma literais_binary64 :
  map (literal (A:=float))
    [0.0; 0.2; 0.3; 86.0; 95.0; 9.7; 13.2; 16.7; 20.9; 26.4; 33.2;
     8.5; 11.8; 15.3; 19.0; 24.5; 30.3; 10.2; 13.7; 17.1; 21.3; 26.7; 33.5;
     8.7; 11.9; 15.5; 19.3; 24.9; 30.8; 6.35; 9.53; 12.7; 19.05; 25.4;
     5.8; 8.8; 12.0; 18.3]%Q
  = [0.0; 0.2; 0.3; 86.0; 95.0; 9.7; 13.2; 16.7; 20.9; 26.4; 33.2;
     8.5; 11.8; 15.3; 19.0; 24.5; 30.3; 10.2; 13.7; 17.1; 21.3; 26.7; 33.5;
     8.7; 11.9; 15.5; 19.3; 24.9; 30.8; 6.35; 9.53; 12.7; 19.05; 25.4;
     5.8; 8.8; 12.0; 18.3]%float.
Proof. vm_compute. reflexivity. Qed.

(** ** The loops *)

Section Lacos.

Context {A : Type} {N : Numero A}.

Lemma ultimo_item_snoc (T : Type) (l : list T) (x : T) :
  ultimo_item (l ++ [x]) = Retorna x.
Proof. unfold ultimo_item. rewrite rev_app_distr. reflexivity. Qed.

Lemma laco_ajusta (dm : A) (resto : list A) :
  forall (feitas : list A) (ultima : A),
    para_cada (ajusta dm) (feitas ++ [ultima]) resto
    = Retorna (feitas ++ ultima :: espacadas dm ultima resto).
Proof.
  induction resto as [|medida resto IH]; intros feitas ultima; simpl.
  - reflexivity.
  - unfold ajusta at 1. rewrite ultimo_item_snoc. simpl.
    rewrite <- app_assoc. simpl.
    change (feitas ++ [ultima; ?m]) with (feitas ++ [ultima] ++ [m]).
    rewrite app_assoc, IH, <- app_assoc. reflexivity.
Qed.

Lemma length_insere (x : A) (l : list A) :
  List.length (insere x l) = S (List.length l).
Proof.
  induction l as [|y l IH]; simpl; [reflexivity|].
  destruct (menor y x); simpl; [rewrite IH|]; reflexivity.
Qed.

Lemma length_sorted (l : list A) : List.length (sorted l) = List.length l.
Proof.
  induction l as [|x l IH]; simpl; [reflexivity|].
  rewrite length_insere, IH. reflexivity.
Qed.

Lemma length_espacadas (dm u : A) (l : list A) :
  List.length (espacadas dm u l) = List.length l.
Proof.
  revert u. induction l as [|x l IH]; intros u; simpl; [reflexivity|].
  rewrite IH. reflexivity.
Qed.

(** What [evitar_cruzamento] computes. *)
Lemma evitar_cruzamento_eq (medidas : list A) (dm : A) :
  evitar_cruzamento medidas dm
  = match sorted medidas with
    | [] => Levanta IndexError
    | m0 :: resto => Retorna (m0 :: espacadas dm m0 resto)
    end.
Proof.
  unfold evitar_cruzamento.
  destruct (sorted medidas) as [|m0 resto]; simpl; [reflexivity|].
  apply (laco_ajusta dm resto [] m0).
Qed.

Lemma evitar_cruzamento_retorna (medidas : list A) (dm : A) :
  medidas <> [] -> exists saida, evitar_cruzamento medidas dm = Retorna saida.
Proof.
  intros Hne. rewrite evitar_cruzamento_eq.
  destruct (sorted medidas) as [|m0 resto] eqn:E.
  - apply (f_equal (@List.length A)) in E. rewrite length_sorted in E.
    destruct medidas; [contradiction | discriminate].
  - eexists. reflexivity.
Qed.

(** The two loops of [fator_decisao]. *)
Lemma laco_bitolas (d : A) (norma : string) (bitolas : dicionario Q) :
  forall candidatos,
    para_cada (examina_bitola d norma) candidatos bitolas
    = Retorna
        (candidatos ++
         map como_candidato
           (filter (entrada_qualifica d)
              (map (fun entrada : string * Q =>
                      (norma, fst entrada, snd entrada)) bitolas))).
Proof.
  induction bitolas as [|[bitola ref] bitolas IH]; intros candidatos; simpl.
  - rewrite app_nil_r. reflexivity.
  - rewrite IH. unfold entrada_qualifica at 2. simpl.
    destruct (qualifica d (literal ref)); simpl.
    + rewrite <- app_assoc. reflexivity.
    + reflexivity.
Qed.

Lemma laco_normas (d : A) (tipo : string)
  (tabela : dicionario (dicionario (dicionario Q))) :
  Forall (fun item => exists bitolas, obtem (snd item) tipo = Retorna bitolas)
    tabela ->
  forall candidatos,
    para_cada (examina_norma d tipo) candidatos tabela
    = Retorna
        (candidatos ++
         map como_candidato
           (filter (entrada_qualifica d)
              (flat_map (entradas_da_norma tipo) tabela))).
Proof.
  induction 1 as [|[norma dados] tabela [bitolas Hb] _ IH];
    intros candidatos; simpl.
  - rewrite app_nil_r. reflexivity.
  - simpl in Hb. rewrite Hb. simpl. rewrite laco_bitolas. simpl.
    rewrite IH, filter_app, map_app, app_assoc. reflexivity.
Qed.

Lemma tabela_tem_tipo (interna : bool) :
  Forall (fun item : string * dicionario (dicionario Q) =>
            exists bitolas, obtem (snd item) (tipo_de interna) = Retorna bitolas)
    TABELA_ROSCAS.
Proof.
  destruct interna; repeat constructor; simpl; eexists; reflexivity.
Qed.

Lemma coleta_candidatos_eq (d : A) (interna : bool) :
  coleta_candidatos d (tipo_de interna)
  = Retorna (qualificados d (tipo_de interna)).
Proof.
  unfold coleta_candidatos.
  rewrite (laco_normas d _ _ (tabela_tem_tipo interna)). reflexivity.
Qed.

(** What [fator_decisao] computes. *)
Lemma fator_decisao_eq (d : A) (interna : bool) :
  fator_decisao d interna
  = match qualificados d (tipo_de interna) with
    | [] => Retorna (None, None, None, literal 0.0%Q, tipo_de interna)
    | (norma, bitola, diametro_ref) :: _ =>
        Retorna (Some norma, Some bitola, Some diametro_ref, literal 95.0%Q,
                 tipo_de interna)
    end.
Proof.
  unfold fator_decisao. fold (tipo_de interna).
  rewrite coleta_candidatos_eq. cbn [liga].
  destruct (qualificados d (tipo_de interna)) as [|[[norma bitola] ref] resto];
    [reflexivity|].
  match goal with
  | |- context [evitar_cruzamento ?l ?dm] =>
      destruct (evitar_cruzamento_retorna l dm) as [saida Hs];
      [discriminate | rewrite Hs]
  end.
  reflexivity.
Qed.

Lemma qualificados_nil (d : A) (tipo : string) :
  qualificados d tipo = []
  <-> forall entrada, In entrada (catalogo tipo) ->
        entrada_qualifica d entrada = false.
Proof.
  unfold qualificados. split.
  - intros H entrada Hin.
    destruct (entrada_qualifica d entrada) eqn:E; [|reflexivity].
    apply map_eq_nil in H.
    assert (Hf : In entrada (filter (entrada_qualifica d) (catalogo tipo)))
      by (apply filter_In; split; assumption).
    rewrite H in Hf. destruct Hf.
  - intros H. induction (catalogo tipo) as [|e l IH]; simpl; [reflexivity|].
    rewrite (H e (or_introl eq_refl)). apply IH.
    intros e' Hin. apply H. right. assumption.
Qed.

(** The head of the qualifying entries is what [find] returns. *)
Lemma find_filter (T : Type) (p : T -> bool) (l : list T) :
  find p l = match filter p l with [] => None | x :: _ => Some x end.
Proof.
  induction l as [|x l IH]; simpl; [reflexivity|].
  destruct (p x); [reflexivity | exact IH].
Qed.

Lemma fator_decisao_sem_ajuste (d : A) (interna : bool) :
  fator_decisao d interna = resolvedor_sem_ajuste d interna.
Proof.
  rewrite fator_decisao_eq. unfold resolvedor_sem_ajuste, qualificados.
  rewrite find_filter.
  destruct (filter (entrada_qualifica d) (catalogo (tipo_de interna)))
    as [|[[norma bitola] ref] resto]; reflexivity.
Qed.

End Lacos.

(* ================================================================== *)
(** ** The match resolver *)

(** The catalogue in declaration order, written out. *)
Lemma catalogo_externa :
  catalogo "externa"
  = [ ("BSP", "1/8", 9.7); ("BSP", "1/4", 13.2); ("BSP", "3/8", 16.7);
      ("BSP", "1/2", 20.9); ("BSP", "3/4", 26.4); ("BSP", "1", 33.2);
      ("NPT", "1/8", 10.2); ("NPT", "1/4", 13.7); ("NPT", "3/8", 17.1);
      ("NPT", "1/2", 21.3); ("NPT", "3/4", 26.7); ("NPT", "1", 33.5);
      ("UNF", "1/4", 6.35); ("UNF", "3/8", 9.53); ("UNF", "1/2", 12.7);
      ("UNF", "3/4", 19.05); ("UNF", "1", 25.4) ]%Q.
Proof. reflexivity. Qed.

Lemma catalogo_interna :
  catalogo "interna"
  = [ ("BSP", "1/8", 8.5); ("BSP", "1/4", 11.8); ("BSP", "3/8", 15.3);
      ("BSP", "1/2", 19.0); ("BSP", "3/4", 24.5); ("BSP", "1", 30.3);
      ("NPT", "1/8", 8.7); ("NPT", "1/4", 11.9); ("NPT", "3/8", 15.5);
      ("NPT", "1/2", 19.3); ("NPT", "3/4", 24.9); ("NPT", "1", 30.8);
      ("UNF", "1/4", 5.8); ("UNF", "3/8", 8.8); ("UNF", "1/2", 12.0);
      ("UNF", "3/4", 18.3); ("UNF", "1", 24.5) ]%Q.
Proof. reflexivity. Qed.

Ltac esta_no_catalogo :=
  unfold tipo_de;
  first [rewrite catalogo_interna | rewrite catalogo_externa];
  simpl; tauto.

(** [find] splits the list at the first element that passes. *)
Lemma find_primeiro (T : Type) (p : T -> bool) (l : list T) (x : T) :
  find p l = Some x ->
  exists antes depois,
    l = antes ++ x :: depois /\
    (forall y, In y antes -> p y = false) /\
    p x = true.
Proof.
  induction l as [|y l IH]; simpl; [discriminate|].
  destruct (p y) eqn:Ey.
  - intros [= ->]. exists [], l. repeat split; [intros ? []|assumption].
  - intros H. destruct (IH H) as (antes & depois & -> & Hantes & Hx).
    exists (y :: antes), depois. repeat split; [|assumption].
    intros z [<-|Hz]; [assumption | apply Hantes; assumption].
Qed.

Lemma find_existe (T : Type) (p : T -> bool) (l : list T) :
  (exists y, In y l /\ p y = true) -> exists x, find p l = Some x.
Proof.
  intros (y & Hin & Hy). destruct (find p l) as [x|] eqn:E.
  - exists x. reflexivity.
  - rewrite (find_none p l E y Hin) in Hy. discriminate.
Qed.

(** C1, as the code has it.  An external thread measured at 20.9 mm is
    resolved as BSP 1/2 with reference diameter 20.9 and confidence 95.0, in
    binary64 and in exact arithmetic alike: 20.9 is the external BSP
    reference of size 1/2.  The external BSP reference of size 3/4 is 26.4,
    and a thread measured at 26.4 mm is resolved as BSP 3/4. *)
Theorem fator_decisao_externa_20_9 :
  fator_decisao (A:=float) (literal 20.9%Q) false
  = Retorna (Some "BSP", Some "1/2", Some (literal 20.9%Q), literal 95.0%Q,
             "externa")
  /\ fator_decisao (A:=Q) 20.9%Q false
     = Retorna (Some "BSP", Some "1/2", Some 20.9%Q, 95.0%Q, "externa")
  /\ In ("BSP", "3/4", 26.4%Q) (catalogo "externa")
  /\ fator_decisao (A:=float) (literal 26.4%Q) false
     = Retorna (Some "BSP", Some "3/4", Some (literal 26.4%Q), literal 95.0%Q,
                "externa")
  /\ fator_decisao (A:=Q) 26.4%Q false
     = Retorna (Some "BSP", Some "3/4", Some 26.4%Q, 95.0%Q, "externa").
Proof.
  split; [|split; [|split; [|split]]].
  - vm_compute. reflexivity.
  - vm_compute. reflexivity.
  - esta_no_catalogo.
  - vm_compute. reflexivity.
  - vm_compute. reflexivity.
Qed.

(** C1, as the specification states it, fails: the match returned for 20.9
    (external) does not carry the nominal size 3/4. *)
Lemma fator_decisao_externa_20_9_nao_3_4 :
  fator_decisao (A:=float) (literal 20.9%Q) false
  <> Retorna (Some "BSP", Some "3/4", Some (literal 20.9%Q), literal 95.0%Q,
              "externa").
Proof.
  vm_compute. intros E. discriminate E.
Qed.

(** C3.  Whenever some entry of the catalogue qualifies, [fator_decisao]
    returns the first qualifying entry in declaration order (no entry before
    it qualifies), and on every input its result is the one of the resolver
    without the collision-avoidance pass. *)
Theorem fator_decisao_primeiro_qualificado
  (A : Type) (N : Numero A) (diametro_medido : A) (interna : bool) :
  (exists entrada,
      In entrada (catalogo (tipo_de interna)) /\
      entrada_qualifica diametro_medido entrada = true) ->
  (exists antes norma bitola diametro_ref depois,
      catalogo (tipo_de interna)
      = antes ++ (norma, bitola, diametro_ref) :: depois /\
      (forall entrada, In entrada antes ->
         entrada_qualifica diametro_medido entrada = false) /\
      entrada_qualifica diametro_medido (norma, bitola, diametro_ref) = true /\
      fator_decisao diametro_medido interna
      = Retorna (Some norma, Some bitola, Some (literal diametro_ref),
                 literal 95.0%Q, tipo_de interna)) /\
  fator_decisao diametro_medido interna
  = resolvedor_sem_ajuste diametro_medido interna.
Proof.
  intros Hex. split; [|apply fator_decisao_sem_ajuste].
  destruct (find_existe _ _ _ Hex) as [[[norma bitola] ref] Hfind].
  destruct (find_primeiro _ _ _ _ Hfind) as (antes & depois & Hcat & Hantes & Hq).
  exists antes, norma, bitola, ref, depois. repeat split; try assumption.
  rewrite fator_decisao_sem_ajuste. unfold resolvedor_sem_ajuste.
  rewrite Hfind. reflexivity.
Qed.

Lemma fator_decisao_primeiro_qualificado_witness :
  (exists entrada,
      In entrada (catalogo (tipo_de true)) /\
      entrada_qualifica (A:=float) 24.5%float entrada = true) /\
  fator_decisao (A:=float) 24.5%float true
  = resolvedor_sem_ajuste 24.5%float true.
Proof.
  assert (H : exists entrada,
             In entrada (catalogo (tipo_de true)) /\
             entrada_qualifica (A:=float) 24.5%float entrada = true).
  { exists ("BSP", "3/4", 24.5%Q). split.
    - esta_no_catalogo.
    - vm_compute. reflexivity. }
  split; [exact H|].
  exact (proj2 (fator_decisao_primeiro_qualificado float Binary64
                  24.5%float true H)).
Defined.

(** C5.  When no entry qualifies the resolver returns the no-match value
    with confidence 0.0; when some entry qualifies the match it returns
    carries the confidence 95.0, whatever the deviation. *)
Theorem fator_decisao_confianca
  (A : Type) (N : Numero A) (diametro_medido : A) (interna : bool) :
  ((forall entrada, In entrada (catalogo (tipo_de interna)) ->
      entrada_qualifica diametro_medido entrada = false) ->
   fator_decisao diametro_medido interna
   = Retorna (None, None, None, literal 0.0%Q, tipo_de interna)) /\
  ((exists entrada,
       In entrada (catalogo (tipo_de interna)) /\
       entrada_qualifica diametro_medido entrada = true) ->
   exists norma bitola diametro_ref,
     fator_decisao diametro_medido interna
     = Retorna (Some norma, Some bitola, Some diametro_ref, literal 95.0%Q,
                tipo_de interna)).
Proof.
  split.
  - intros Hnone. rewrite fator_decisao_eq.
    apply qualificados_nil in Hnone. rewrite Hnone. reflexivity.
  - intros Hex. rewrite fator_decisao_eq.
    destruct (qualificados diametro_medido (tipo_de interna))
      as [|[[norma bitola] ref] resto] eqn:E.
    + destruct Hex as (entrada & Hin & Hq).
      rewrite (proj1 (qualificados_nil _ _) E entrada Hin) in Hq. discriminate.
    + exists norma, bitola, ref. reflexivity.
Qed.

Lemma nenhuma_qualifica_50 (interna : bool) :
  forall entrada, In entrada (catalogo (tipo_de interna)) ->
    entrada_qualifica (A:=float) 50%float entrada = false.
Proof.
  apply qualificados_nil. destruct interna; vm_compute; reflexivity.
Qed.

Lemma fator_decisao_confianca_witness :
  fator_decisao (A:=float) 50%float false
  = Retorna (None, None, None, literal 0.0%Q, tipo_de false)
  /\ exists norma bitola diametro_ref,
       fator_decisao (A:=float) 19.0%float true
       = Retorna (Some norma, Some bitola, Some diametro_ref, literal 95.0%Q,
                  tipo_de true).
Proof.
  split.
  - apply (proj1 (fator_decisao_confianca float Binary64 50%float false)).
    apply nenhuma_qualifica_50.
  - apply (proj2 (fator_decisao_confianca float Binary64 19.0%float true)).
    exists ("BSP", "1/2", 19.0%Q). split.
    + esta_no_catalogo.
    + vm_compute. reflexivity.
Defined.

(** C10.  [evitar_cruzamento] raises [IndexError] on the empty list, and
    [fator_decisao] never raises: the list it hands to [evitar_cruzamento]
    is the list of the reference diameters of a non-empty list of
    candidates, on which the call returns. *)
Theorem evitar_cruzamento_nunca_vazia (A : Type) (N : Numero A) :
  (forall distancia_minima : A,
      evitar_cruzamento [] distancia_minima = Levanta IndexError) /\
  (forall (diametro_medido : A) (interna : bool),
      (exists r, fator_decisao diametro_medido interna = Retorna r) /\
      exists candidatos,
        coleta_candidatos diametro_medido (tipo_de interna)
        = Retorna candidatos /\
        (candidatos <> [] ->
         map (fun c : candidato => snd c) candidatos <> [] /\
         exists saida,
           evitar_cruzamento (map (fun c : candidato => snd c) candidatos)
             (literal distancia_minima_padrao)
           = Retorna saida)).
Proof.
  split; [reflexivity|].
  intros d interna. split.
  - rewrite fator_decisao_eq.
    destruct (qualificados d (tipo_de interna)) as [|[[norma bitola] ref] ?];
      eexists; reflexivity.
  - exists (qualificados d (tipo_de interna)).
    split; [apply coleta_candidatos_eq|].
    intros Hne.
    assert (Hm : map (fun c : candidato => snd c)
                   (qualificados d (tipo_de interna)) <> []).
    { intros E. apply map_eq_nil in E. contradiction. }
    split; [exact Hm|]. apply evitar_cruzamento_retorna. exact Hm.
Qed.

Lemma evitar_cruzamento_nunca_vazia_witness :
  exists candidatos,
    coleta_candidatos (A:=float) 19.0%float (tipo_de true)
    = Retorna candidatos /\
    exists saida,
      evitar_cruzamento (map (fun c : candidato => snd c) candidatos)
        (literal distancia_minima_padrao)
      = Retorna saida.
Proof.
  destruct (proj2 (evitar_cruzamento_nunca_vazia float Binary64)
              19.0%float true) as [_ (candidatos & Hc & H)].
  exists candidatos. split; [exact Hc|].
  apply H. intros E. rewrite E in Hc. vm_compute in Hc. discriminate Hc.
Defined.

(* ================================================================== *)
(** ** The collision-avoidance pass *)

Section Passos.

Context {A : Type} {N : Numero A}.

Lemma insere_perm (x : A) (l : list A) : Permutation (x :: l) (insere x l).
Proof.
  induction l as [|y l IH]; simpl; [reflexivity|].
  destruct (menor y x); [|reflexivity].
  rewrite perm_swap. apply perm_skip. exact IH.
Qed.

Lemma sorted_perm (l : list A) : Permutation l (sorted l).
Proof.
  induction l as [|x l IH]; simpl; [constructor|].
  rewrite <- insere_perm. apply perm_skip. exact IH.
Qed.

(** Each value the loop appends is either pushed up to its predecessor plus
    the minimum distance, or kept because the difference the code computes
    is not below the minimum distance. *)
Lemma espacadas_passos (dm : A) (resto : list A) :
  forall ultima,
    Sorted (passo dm) (ultima :: espacadas dm ultima resto).
Proof.
  induction resto as [|medida resto IH]; intros ultima; simpl.
  - repeat constructor.
  - constructor; [apply IH|]. constructor. unfold passo.
    destruct (menor (subtrai medida ultima) dm) eqn:E; [left|right];
      [reflexivity | exact E].
Qed.

Lemma Sorted_impl (T : Type) (R S : T -> T -> Prop) (l : list T) :
  (forall a b, R a b -> S a b) -> Sorted R l -> Sorted S l.
Proof.
  intros HRS. induction 1 as [|a l Hl IH Hhd]; constructor; [exact IH|].
  destruct Hhd; constructor. apply HRS. assumption.
Qed.

(** Sorting, for an order [le] that [<] decides on the values [bom]. *)
Section Ordem.

Variable bom : A -> Prop.
Variable le : A -> A -> Prop.

Hypothesis menor_le : forall x y, menor x y = true -> le x y.
Hypothesis nao_menor_le :
  forall x y, bom x -> bom y -> menor x y = false -> le y x.
Hypothesis le_refl : forall x, bom x -> le x x.
Hypothesis le_trans : forall x y z, le x y -> le y z -> le x z.

Lemma insere_ordenada (x : A) (l : list A) :
  bom x -> Forall bom l ->
  StronglySorted le l -> StronglySorted le (insere x l).
Proof.
  intros Hx Hl Hs. induction Hs as [|y l Hs IH Hy]; cbn [insere].
  - repeat constructor.
  - inversion Hl as [|? ? Hby Hbl]; subst.
    destruct (menor y x) eqn:E.
    + constructor; [apply IH; exact Hbl|].
      apply (Permutation_Forall (insere_perm x l)).
      constructor; [|exact Hy]. apply menor_le, E.
    + assert (Hxy : le x y) by (apply nao_menor_le; assumption).
      constructor; [constructor; assumption|].
      constructor; [exact Hxy|].
      eapply Forall_impl; [|exact Hy].
      intros z Hz. eapply le_trans; eassumption.
Qed.

Lemma sorted_ordenada (l : list A) :
  Forall bom l -> StronglySorted le (sorted l).
Proof.
  induction 1 as [|x l Hx Hl IH]; simpl; [constructor|].
  apply insere_ordenada; [exact Hx | | exact IH].
  apply (Permutation_Forall (sorted_perm l)). exact Hl.
Qed.

(** The head of the sorted list is an input and no input is below it. *)
Lemma sorted_minimo (l : list A) (m0 : A) (resto : list A) :
  Forall bom l ->
  sorted l = m0 :: resto ->
  In m0 l /\ forall x, In x l -> le m0 x.
Proof.
  intros Hb E. pose proof (sorted_perm l) as Hp. rewrite E in Hp.
  assert (Hm : In m0 l).
  { apply (Permutation_in _ (Permutation_sym Hp)). left. reflexivity. }
  split; [exact Hm|].
  intros x Hx. apply (Permutation_in _ Hp) in Hx.
  pose proof (sorted_ordenada l Hb) as Hs. rewrite E in Hs.
  inversion Hs as [|? ? _ Hall]; subst.
  destruct Hx as [<- | Hx].
  - apply le_refl. rewrite Forall_forall in Hb. apply Hb, Hm.
  - rewrite Forall_forall in Hall. apply Hall, Hx.
Qed.

End Ordem.

End Passos.

(** Exact arithmetic. *)

Lemma menor_exato (x y : Q) : menor (A:=Q) x y = false <-> (y <= x)%Q.
Proof.
  simpl. rewrite negb_false_iff. apply Qle_bool_iff.
Qed.

Lemma menor_exato_true (x y : Q) : menor (A:=Q) x y = true -> (x < y)%Q.
Proof.
  simpl. rewrite negb_true_iff. intros H.
  apply Qnot_le_lt. intros Hle. apply Qle_bool_iff in Hle. congruence.
Qed.

Lemma passo_exato (dm a b : Q) :
  passo dm a b -> (dm <= b - a)%Q.
Proof.
  intros [-> | H].
  - simpl. ring_simplify (a + dm - a)%Q. apply Qle_refl.
  - apply menor_exato in H. exact H.
Qed.

(** The order of the rationals, for [sorted_minimo]. *)
Lemma sorted_minimo_exato (l : list Q) (m0 : Q) (resto : list Q) :
  sorted l = m0 :: resto ->
  In m0 l /\ forall x, In x l -> (m0 <= x)%Q.
Proof.
  apply (sorted_minimo (fun _ => True) Qle).
  - intros x y H. apply Qlt_le_weak, menor_exato_true, H.
  - intros x y _ _ H. apply menor_exato, H.
  - intros x _. apply Qle_refl.
  - intros x y z. apply Qle_trans.
  - apply Forall_forall. intros; exact I.
Qed.

(** ** The order of binary64 numbers

    [<] and [<=] on primitive floats are specified by [SFcompare] on their
    unfolded form; a NaN compares with nothing. *)

Lemma SFcompare_antisym (a b : spec_float) :
  SFcompare b a = option_map CompOpp (SFcompare a b).
Proof.
  destruct a as [sa|sa| |sa ma ea], b as [sb|sb| |sb mb eb]; simpl;
    try reflexivity;
    try (destruct sa; reflexivity); try (destruct sb; reflexivity);
    try (destruct sa, sb; reflexivity).
  destruct sa, sb; try reflexivity;
    rewrite (Z.compare_antisym ea eb); destruct (ea ?= eb)%Z; simpl;
    try reflexivity;
    rewrite (Pos.compare_cont_antisym); simpl; try reflexivity.
  rewrite CompOpp_involutive. reflexivity.
Qed.

Lemma SFltb_leb (a b : spec_float) : SFltb a b = true -> SFleb a b = true.
Proof. unfold SFltb, SFleb. destruct (SFcompare a b) as [[]|]; congruence. Qed.

Lemma SFcompare_nan (a b : spec_float) :
  a <> S754_nan -> b <> S754_nan -> SFcompare a b <> None.
Proof. destruct a, b; simpl; congruence. Qed.

Lemma SFltb_false_leb (a b : spec_float) :
  a <> S754_nan -> b <> S754_nan -> SFltb a b = false -> SFleb b a = true.
Proof.
  intros Ha Hb. unfold SFltb, SFleb. rewrite (SFcompare_antisym a b).
  pose proof (SFcompare_nan a b Ha Hb) as H.
  destruct (SFcompare a b) as [[]|]; simpl; congruence.
Qed.

Lemma SFltb_leb_false (a b : spec_float) :
  SFltb a b = true -> SFleb b a = false.
Proof.
  unfold SFltb, SFleb. rewrite (SFcompare_antisym a b).
  destruct (SFcompare a b) as [[]|]; simpl; congruence.
Qed.

Lemma SFleb_trans (a b c : spec_float) :
  SFleb a b = true -> SFleb b c = true -> SFleb a c = true.
Proof.
  unfold SFleb.
  destruct a as [sa|sa| |sa ma ea], b as [sb|sb| |sb mb eb],
    c as [sc|sc| |sc mc ec]; simpl; try congruence;
    try (destruct sa; simpl; congruence);
    try (destruct sb; simpl; congruence);
    try (destruct sc; simpl; congruence);
    try (destruct sa, sb; simpl; congruence);
    try (destruct sa, sc; simpl; congruence);
    try (destruct sb, sc; simpl; congruence);
    try (destruct sa, sb, sc; simpl; congruence).
  all: destruct sa, sb, sc; simpl; try congruence.
  all: change (PosDef.Pos.compare_cont Eq) with Pos.compare.
  all: destruct (Z.compare_spec ea eb), (Z.compare_spec eb ec),
         (Z.compare_spec ea ec); simpl; try congruence; try lia.
  all: subst.
  all: destruct (Pos.compare_spec ma mb), (Pos.compare_spec mb mc),
         (Pos.compare_spec ma mc); simpl; try congruence; try lia.
Qed.

Lemma SFleb_refl (a : spec_float) : a <> S754_nan -> SFleb a a = true.
Proof.
  intros Ha. unfold SFleb.
  pose proof (SFcompare_antisym a a) as H.
  pose proof (SFcompare_nan a a Ha Ha) as Hn.
  destruct (SFcompare a a) as [[]|]; simpl in H; congruence.
Qed.

Lemma nao_nan_SF (x : float) : nao_nan x = true -> Prim2SF x <> S754_nan.
Proof.
  unfold nao_nan. rewrite FloatAxioms.eqb_spec. intros H E. rewrite E in H.
  discriminate H.
Qed.

Lemma ltb_leb (x y : float) :
  PrimFloat.ltb x y = true -> PrimFloat.leb x y = true.
Proof. rewrite FloatAxioms.ltb_spec, FloatAxioms.leb_spec. apply SFltb_leb. Qed.

Lemma ltb_leb_false (x y : float) :
  PrimFloat.ltb x y = true -> PrimFloat.leb y x = false.
Proof. rewrite FloatAxioms.ltb_spec, FloatAxioms.leb_spec. apply SFltb_leb_false. Qed.

Lemma ltb_false_leb (x y : float) :
  nao_nan x = true -> nao_nan y = true ->
  PrimFloat.ltb x y = false -> PrimFloat.leb y x = true.
Proof.
  intros Hx Hy. rewrite FloatAxioms.ltb_spec, FloatAxioms.leb_spec.
  apply SFltb_false_leb; apply nao_nan_SF; assumption.
Qed.

Lemma leb_trans (x y z : float) :
  PrimFloat.leb x y = true -> PrimFloat.leb y z = true ->
  PrimFloat.leb x z = true.
Proof. rewrite !FloatAxioms.leb_spec. apply SFleb_trans. Qed.

Lemma leb_refl (x : float) : nao_nan x = true -> PrimFloat.leb x x = true.
Proof. intros H. rewrite FloatAxioms.leb_spec. apply SFleb_refl, nao_nan_SF, H. Qed.

Lemma sorted_minimo_binary64 (l : list float) (m0 : float)
  (resto : list float) :
  forallb nao_nan l = true ->
  sorted l = m0 :: resto ->
  In m0 l /\ forall x, In x l -> PrimFloat.leb m0 x = true.
Proof.
  intros Hb.
  apply (sorted_minimo (fun x => nao_nan x = true)
           (fun x y => PrimFloat.leb x y = true)).
  - intros x y. apply ltb_leb.
  - intros x y. apply ltb_false_leb.
  - intros x. apply leb_refl.
  - intros x y z. apply leb_trans.
  - apply Forall_forall. rewrite forallb_forall in Hb. exact Hb.
Qed.

(* ================================================================== *)
(** ** Rounding in binary64

    The sum and the difference of binary64 numbers are the exact results
    rounded to nearest ([binary_normalize]).  The section below derives
    from the definition of that rounding what the properties of the code
    need: the rounded result lies between the representable numbers below
    and above the exact one. *)

Section Arredondamento.

Local Open Scope Z_scope.

(** The number of binary digits of a mantissa. *)
Lemma digits2_pos_log2 (p : positive) :
  Zpos (digits2_pos p) = Z.log2 (Zpos p) + 1.
Proof.
  induction p as [p IH|p IH|]; simpl digits2_pos.
  - rewrite Pos2Z.inj_succ, IH.
    change (Zpos p~1) with (2 * Zpos p + 1).
    rewrite Z.log2_succ_double by lia. lia.
  - rewrite Pos2Z.inj_succ, IH.
    change (Zpos p~0) with (2 * Zpos p).
    rewrite Z.log2_double by lia. lia.
  - reflexivity.
Qed.

(** The iteration of [SpecFloat], counted in unary. *)
Lemma iter_pos_nat (A : Type) (f : A -> A) (p : positive) :
  forall x, SpecFloat.iter_pos f p x = Nat.iter (Pos.to_nat p) f x.
Proof.
  induction p as [p IH|p IH|]; intros x; simpl SpecFloat.iter_pos.
  - rewrite !IH, Pos2Nat.inj_xI.
    replace (S (2 * Pos.to_nat p))%nat
      with (Pos.to_nat p + (Pos.to_nat p + 1))%nat by lia.
    rewrite !Nat.iter_add. reflexivity.
  - rewrite !IH, Pos2Nat.inj_xO.
    replace (2 * Pos.to_nat p)%nat with (Pos.to_nat p + Pos.to_nat p)%nat
      by lia.
    rewrite Nat.iter_add. reflexivity.
  - reflexivity.
Qed.

(** One step of the right shift halves the mantissa and records the bit
    it drops. *)
Lemma shr_1_m (r : shr_record) :
  0 <= shr_m r ->
  shr_m (shr_1 r) = shr_m r / 2 /\
  shr_r (shr_1 r) = Z.odd (shr_m r) /\
  shr_s (shr_1 r) = shr_r r || shr_s r.
Proof.
  destruct r as [m r s]. simpl. intros Hm.
  destruct m as [|[p|p|]|p]; simpl; try lia; repeat split.
  - rewrite Pos2Z.inj_xI. rewrite Z.mul_comm, Z.div_add_l by lia.
    change (1 / 2) with 0. lia.
  - rewrite Pos2Z.inj_xO. rewrite Z.mul_comm, Z.div_mul by lia. reflexivity.
Qed.

Lemma shr_iter (n : nat) (r : shr_record) :
  0 <= shr_m r ->
  let r' := Nat.iter n shr_1 r in
  shr_m r' = shr_m r / 2 ^ Z.of_nat n /\
  (shr_r r = false -> shr_s r = false -> shr_m r mod 2 ^ Z.of_nat n = 0 ->
   shr_r r' = false /\ shr_s r' = false).
Proof.
  intros Hm. induction n as [|n IH]; cbv zeta.
  - simpl. rewrite Z.div_1_r. tauto.
  - cbv zeta in IH. destruct IH as [IHm IHrs].
    rewrite Nat2Z.inj_succ, Z.pow_succ_r by lia.
    simpl Nat.iter.
    assert (H0 : 0 <= shr_m (Nat.iter n shr_1 r)).
    { rewrite IHm. apply Z.div_pos; [exact Hm | apply Z.pow_pos_nonneg; lia]. }
    destruct (shr_1_m _ H0) as (H1 & H2 & H3).
    split.
    + rewrite H1, IHm, Z.div_div by (try apply Z.pow_pos_nonneg; lia).
      f_equal. lia.
    + intros Hr Hs Hmod.
      assert (Hp : 0 < 2 ^ Z.of_nat n) by (apply Z.pow_pos_nonneg; lia).
      assert (Hmod' : shr_m r mod 2 ^ Z.of_nat n = 0).
      { apply Z.mod_divide in Hmod; [|lia]. apply Z.mod_divide; [lia|].
        destruct Hmod as [k Hk]. exists (k * 2). lia. }
      destruct (IHrs Hr Hs Hmod') as [Hr' Hs'].
      rewrite H2, H3, Hr', Hs', IHm. split; [|reflexivity].
      apply Z.mod_divide in Hmod; [|lia]. destruct Hmod as [k Hk].
      rewrite Hk. replace (k * (2 * 2 ^ Z.of_nat n)) with ((k * 2) * 2 ^ Z.of_nat n) by lia.
      rewrite Z.div_mul by lia. rewrite Z.mul_comm, Z.odd_mul. reflexivity.
Qed.

Lemma ue_nonneg n : 0 <= ue n.
Proof. unfold ue. lia. Qed.

Lemma ue_mono a b : 0 < a -> a <= b -> ue a <= ue b.
Proof.
  intros Ha Hab. unfold ue. pose proof (Z.log2_le_mono a b Hab). lia.
Qed.

Lemma ue_le_log2 n : 0 < n -> ue n <= Z.log2 n.
Proof. intros H. unfold ue. pose proof (Z.log2_nonneg n). lia. Qed.

Lemma ue_menor (a b : Z) :
  ue a <> ue b -> ue a <= ue b ->
  Z.log2 a < Z.log2 b /\ ue b = Z.log2 b - 52.
Proof. unfold ue. lia. Qed.

Lemma ue_lt (a b : Z) :
  ue a < ue b -> Z.log2 a < Z.log2 b.
Proof. unfold ue. lia. Qed.

Lemma pow2_pos k : 0 <= k -> 0 < 2 ^ k.
Proof. intros. apply Z.pow_pos_nonneg; lia. Qed.

Lemma pow2_split a b : 0 <= b <= a -> 2 ^ a = 2 ^ (a - b) * 2 ^ b.
Proof. intros H. rewrite <- Z.pow_add_r by lia. f_equal. lia. Qed.

(** The largest multiple of the unit of N that is not above N is not below
    any representable number that is not above N. *)
Lemma piso_representavel (y N : Z) :
  0 < y -> y mod 2 ^ ue y = 0 -> y <= N ->
  y <= N / 2 ^ ue N * 2 ^ ue N.
Proof.
  intros Hy Hrep HyN.
  assert (HN : 0 < N) by lia.
  pose proof (ue_mono y N Hy HyN) as Hmono.
  pose proof (pow2_pos (ue N) (ue_nonneg N)) as Hg.
  destruct (Z.eq_dec (ue y) (ue N)) as [E|E].
  - rewrite E in Hrep.
    apply Z.div_exact in Hrep; [|lia].
    pose proof (Z.div_le_mono y N (2 ^ ue N) Hg HyN) as Hd.
    rewrite Hrep at 1. rewrite Z.mul_comm.
    apply Z.mul_le_mono_nonneg_r; lia.
  - destruct (ue_menor y N E Hmono) as [Hlog Hu].
    destruct (Z.log2_spec y Hy) as [_ Hy2].
    destruct (Z.log2_spec N HN) as [HN1 _].
    assert (Hpow : 2 ^ Z.succ (Z.log2 y) <= 2 ^ Z.log2 N)
      by (apply Z.pow_le_mono_r; clear - Hlog; lia).
    pose proof (ue_nonneg N) as Hu0.
    assert (Hh : 2 ^ Z.log2 N = 2 ^ 52 * 2 ^ ue N).
    { rewrite (pow2_split (Z.log2 N) (ue N)) by lia. do 2 f_equal. lia. }
    assert (Hd : 2 ^ Z.log2 N / 2 ^ ue N <= N / 2 ^ ue N)
      by (apply Z.div_le_mono; lia).
    rewrite Hh, Z.div_mul in Hd by lia.
    assert (2 ^ 52 * 2 ^ ue N <= N / 2 ^ ue N * 2 ^ ue N)
      by (apply Z.mul_le_mono_nonneg_r; lia).
    lia.
Qed.

(** The smallest multiple of the unit of N that is not below N is not above
    any representable number that is not below N. *)
Lemma teto_representavel (y N : Z) :
  0 < N -> N <= y -> y mod 2 ^ ue y = 0 ->
  N / 2 ^ ue N * 2 ^ ue N
  + (if N mod 2 ^ ue N =? 0 then 0 else 2 ^ ue N) <= y.
Proof.
  intros HN HNy Hrep.
  assert (Hy : 0 < y) by lia.
  pose proof (ue_mono N y HN HNy) as Hmono.
  pose proof (pow2_pos (ue N) (ue_nonneg N)) as Hg.
  destruct (Z.eqb_spec (N mod 2 ^ ue N) 0) as [E0|E0].
  - apply Z.div_exact in E0; [|lia]. lia.
  - pose proof (Z.mod_pos_bound N (2 ^ ue N) Hg) as Hmod.
    pose proof (Z.div_mod N (2 ^ ue N) ltac:(lia)) as Hdm.
    destruct (Z.eq_dec (ue y) (ue N)) as [E|E].
    + rewrite E in Hrep. apply Z.div_exact in Hrep; [|lia].
      assert (Hk : N / 2 ^ ue N < y / 2 ^ ue N).
      { destruct (Z_lt_le_dec (N / 2 ^ ue N) (y / 2 ^ ue N)) as [H|H];
          [exact H|].
        assert (2 ^ ue N * (y / 2 ^ ue N) <= 2 ^ ue N * (N / 2 ^ ue N))
          by (apply Z.mul_le_mono_nonneg_l; lia).
        lia. }
      assert ((N / 2 ^ ue N + 1) * 2 ^ ue N <= y / 2 ^ ue N * 2 ^ ue N)
        by (apply Z.mul_le_mono_nonneg_r; lia).
      lia.
    + destruct (ue_menor N y (not_eq_sym E) Hmono) as [Hlog _].
      destruct (Z.log2_spec y Hy) as [Hy1 _].
      destruct (Z.log2_spec N HN) as [_ HN2].
      assert (Hpow : 2 ^ Z.succ (Z.log2 N) <= 2 ^ Z.log2 y)
        by (apply Z.pow_le_mono_r; clear - Hlog; lia).
      pose proof (ue_le_log2 N HN) as Hul.
      pose proof (ue_nonneg N) as Hu0.
      assert (Hh : 2 ^ Z.succ (Z.log2 N)
                   = 2 ^ (Z.succ (Z.log2 N) - ue N) * 2 ^ ue N)
        by (apply pow2_split; lia).
      assert (Hk : N / 2 ^ ue N < 2 ^ (Z.succ (Z.log2 N) - ue N)).
      { apply Z.div_lt_upper_bound; [lia|]. lia. }
      assert ((N / 2 ^ ue N + 1) * 2 ^ ue N
              <= 2 ^ (Z.succ (Z.log2 N) - ue N) * 2 ^ ue N)
        by (apply Z.mul_le_mono_nonneg_r; lia).
      lia.
Qed.

(** Canonical pairs are ordered by exponent, then by mantissa. *)
Lemma compara_canonicos (m1 m2 : positive) (a1 a2 : Z) :
  ue (Zpos m1 * 2 ^ a1) = a1 -> ue (Zpos m2 * 2 ^ a2) = a2 ->
  (Zpos m1 * 2 ^ a1 ?= Zpos m2 * 2 ^ a2)
  = match a1 ?= a2 with
    | Eq => (m1 ?= m2)%positive
    | c => c
    end.
Proof.
  intros H1 H2.
  assert (Ha1 : 0 <= a1) by (rewrite <- H1; apply ue_nonneg).
  assert (Ha2 : 0 <= a2) by (rewrite <- H2; apply ue_nonneg).
  assert (Hn1 : 0 < Zpos m1 * 2 ^ a1)
    by (apply Z.mul_pos_pos; [lia | apply pow2_pos; lia]).
  assert (Hn2 : 0 < Zpos m2 * 2 ^ a2)
    by (apply Z.mul_pos_pos; [lia | apply pow2_pos; lia]).
  assert (Hlt : forall n1 n2 b1 b2,
             0 < n1 -> 0 < n2 -> ue n1 = b1 -> ue n2 = b2 -> b1 < b2 ->
             n1 < n2).
  { intros n1 n2 b1 b2 P1 P2 E1 E2 Hb.
    assert (Hlog : Z.log2 n1 < Z.log2 n2) by (apply ue_lt; lia).
    destruct (Z.log2_spec n1 P1) as [_ A].
    destruct (Z.log2_spec n2 P2) as [B _].
    assert (2 ^ Z.succ (Z.log2 n1) <= 2 ^ Z.log2 n2)
      by (apply Z.pow_le_mono_r; clear - Hlog; lia).
    lia. }
  destruct (Z.compare_spec a1 a2) as [E|E|E].
  - subst a2. pose proof (pow2_pos a1 Ha1).
    rewrite <- Zmult_compare_compat_r by lia. reflexivity.
  - apply Z.compare_lt_iff. eapply Hlt; eauto.
  - apply Z.compare_gt_iff. eapply Hlt; eauto.
Qed.

(** A canonical mantissa and exponent, scaled. *)
Lemma canonico_ue (m : positive) (e : Z) :
  canonical_mantissa prec emax m e = true <->
  -1074 <= e /\ ue (Zpos m * 2 ^ (e + 1074)) = e + 1074.
Proof.
  unfold canonical_mantissa, fexp, emin, prec, emax.
  rewrite Z.eqb_eq, digits2_pos_log2. split.
  - intros H. assert (He : -1074 <= e) by lia. split; [exact He|].
    unfold ue. rewrite Z.log2_mul_pow2 by lia. lia.
  - intros [He H]. unfold ue in H. rewrite Z.log2_mul_pow2 in H by lia. lia.
Qed.

(** A right shift by [n] bits divides the mantissa by 2^n, and records no
    lost bit when the division is exact. *)
Lemma shr_spec (mz : positive) (ez n : Z) :
  0 <= n ->
  exists R,
    shr (Build_shr_record (Zpos mz) false false) ez n = (R, ez + n) /\
    shr_m R = Zpos mz / 2 ^ n /\
    (Zpos mz mod 2 ^ n = 0 -> shr_r R = false /\ shr_s R = false).
Proof.
  intros Hn. destruct n as [|p|p]; [| |lia].
  - exists (Build_shr_record (Zpos mz) false false).
    unfold shr. rewrite Z.add_0_r. cbn [shr_m shr_r shr_s].
    rewrite Z.pow_0_r, Z.div_1_r. tauto.
  - unfold shr. rewrite iter_pos_nat.
    pose proof (shr_iter (Pos.to_nat p)
                  (Build_shr_record (Zpos mz) false false)) as H.
    cbn [shr_m shr_r shr_s] in H. rewrite positive_nat_Z in H.
    specialize (H ltac:(lia)). cbv zeta in H. destruct H as [H1 H2].
    eexists. split; [reflexivity|]. split; [exact H1|].
    intros Hmod. apply H2; [reflexivity | reflexivity | exact Hmod].
Qed.

Lemma round_nearest_even_spec (R : shr_record) :
  (round_nearest_even (shr_m R) (loc_of_shr_record R) = shr_m R \/
   round_nearest_even (shr_m R) (loc_of_shr_record R) = shr_m R + 1) /\
  (shr_r R = false -> shr_s R = false ->
   round_nearest_even (shr_m R) (loc_of_shr_record R) = shr_m R).
Proof.
  destruct R as [m [] []]; cbn; try destruct (Z.even m);
    split; try tauto; intros; congruence.
Qed.

Lemma fexp_eq (d : Z) : fexp prec emax d = Z.max (d - 53) (-1074).
Proof. reflexivity. Qed.

Lemma ue_escalado (m : positive) (e : Z) :
  -1074 <= e ->
  ue (Zpos m * 2 ^ (e + 1074))
  = fexp prec emax (Zpos (digits2_pos m) + e) + 1074.
Proof.
  intros He. rewrite fexp_eq, digits2_pos_log2. unfold ue.
  rewrite Z.log2_mul_pow2 by lia. lia.
Qed.

Lemma log2_faixa (n k : Z) :
  0 <= k -> 2 ^ k <= n < 2 ^ (k + 1) -> Z.log2 n = k.
Proof.
  intros Hk H. apply Z.log2_unique; [exact Hk|].
  unfold Z.succ. exact H.
Qed.

Lemma shr_fexp_parado (q : positive) (e : Z) :
  fexp prec emax (Zpos (digits2_pos q) + e) = e ->
  shr_fexp prec emax (Zpos q) e loc_Exact
  = (Build_shr_record (Zpos q) false false, e).
Proof.
  intros H. unfold shr_fexp. cbn [Zdigits2 shr_record_of_loc].
  rewrite H, Z.sub_diag. reflexivity.
Qed.

(** What rounding to nearest returns for the exact value N * 2^-1074: a
    canonical mantissa and exponent whose value lies between N rounded
    down and N rounded up to a multiple of its unit, or an infinity when
    the exponent is beyond the largest one. *)
Lemma binary_round_aux_spec (s : bool) (mz : positive) (ez : Z) :
  -1074 <= ez ->
  ez <= fexp prec emax (Zpos (digits2_pos mz) + ez) ->
  exists (m' : positive) (e' : Z),
    -1074 <= e' /\
    ue (Zpos m' * 2 ^ (e' + 1074)) = e' + 1074 /\
    (let N := Zpos mz * 2 ^ (ez + 1074) in
     let g := 2 ^ ue N in
     N / g * g <= Zpos m' * 2 ^ (e' + 1074)
       <= N / g * g + (if N mod g =? 0 then 0 else g)) /\
    binary_round_aux prec emax s (Zpos mz) ez loc_Exact
    = if e' <=? 971 then S754_finite s m' e' else S754_infinity s.
Proof.
  intros Hez Hle.
  set (e1 := fexp prec emax (Zpos (digits2_pos mz) + ez)) in *.
  assert (Hue : ue (Zpos mz * 2 ^ (ez + 1074)) = e1 + 1074)
    by (apply ue_escalado; exact Hez).
  set (n := e1 - ez).
  assert (Hn : 0 <= n) by (unfold n; lia).
  destruct (shr_spec mz ez n Hn) as (R & HR & Hm & Hexact).
  replace (ez + n) with e1 in HR by (unfold n; lia).
  assert (Hc : 0 < 2 ^ (ez + 1074)) by (apply pow2_pos; lia).
  assert (Hpn : 0 < 2 ^ n) by (apply pow2_pos; lia).
  assert (Hg : 2 ^ (e1 + 1074) = 2 ^ n * 2 ^ (ez + 1074)).
  { rewrite <- Z.pow_add_r by lia. f_equal. unfold n. lia. }
  assert (Hdiv : Zpos mz * 2 ^ (ez + 1074) / 2 ^ (e1 + 1074) = shr_m R).
  { rewrite Hg, Z.div_mul_cancel_r by lia. symmetry. exact Hm. }
  assert (Hmod : Zpos mz * 2 ^ (ez + 1074) mod 2 ^ (e1 + 1074)
                 = (Zpos mz mod 2 ^ n) * 2 ^ (ez + 1074)).
  { rewrite Hg, Z.mul_mod_distr_r by lia. reflexivity. }
  cbv zeta. rewrite Hue, Hdiv, Hmod.
  unfold binary_round_aux.
  assert (H1 : shr_fexp prec emax (Zpos mz) ez loc_Exact = (R, e1)).
  { unfold shr_fexp. cbn [Zdigits2 shr_record_of_loc]. exact HR. }
  rewrite H1.
  destruct (round_nearest_even_spec R) as [Hround Hkeep].
  set (mr := round_nearest_even (shr_m R) (loc_of_shr_record R)) in *.
  destruct (Z.eq_dec n 0) as [En|En].
  - (* no shift: the value is representable as it is *)
    assert (Ee : e1 = ez) by (unfold n in En; lia).
    rewrite En, Z.pow_0_r in *. rewrite Z.div_1_r in Hm.
    rewrite Z.mod_1_r in Hexact |- *.
    destruct (Hexact eq_refl) as [Hr Hs].
    assert (Emr : mr = Zpos mz) by (rewrite (Hkeep Hr Hs); exact Hm).
    rewrite Emr. rewrite shr_fexp_parado by (rewrite Ee; exact Ee).
    cbn [shr_m]. exists mz, e1.
    split; [lia|]. split; [rewrite Ee, Hue; lia|].
    split; [|reflexivity].
    rewrite Hm, Ee. cbn. lia.
  - (* a shift by n > 0 bits: the mantissa gets 53 bits *)
    assert (Hn0 : 0 < n) by lia.
    pose proof (digits2_pos_log2 mz) as Hdig.
    pose proof (fexp_eq (Zpos (digits2_pos mz) + ez)) as Hfe.
    fold e1 in Hfe.
    assert (Hdn : n = e1 - ez) by reflexivity.
    assert (He1 : e1 = Z.log2 (Zpos mz) - 52 + ez) by lia.
    assert (En' : n = Z.log2 (Zpos mz) - 52) by lia.
    destruct (Z.log2_spec (Zpos mz) ltac:(lia)) as [Hlo Hhi].
    assert (Hm1 : 2 ^ 52 <= shr_m R < 2 ^ 53).
    { rewrite Hm. split.
      - apply Z.div_le_lower_bound; [lia|].
        rewrite <- Z.pow_add_r by lia.
        replace (n + 52) with (Z.log2 (Zpos mz)) by lia. exact Hlo.
      - apply Z.div_lt_upper_bound; [lia|].
        rewrite <- Z.pow_add_r by lia.
        replace (n + 53) with (Z.succ (Z.log2 (Zpos mz))) by lia.
        exact Hhi. }
    assert (Hinex : mr = shr_m R + 1 -> Zpos mz mod 2 ^ n <> 0).
    { intros E0 E1. destruct (Hexact E1) as [Hr Hs].
      rewrite (Hkeep Hr Hs) in E0. lia. }
    assert (Hmodpos : 0 <= Zpos mz mod 2 ^ n)
      by (apply Z.mod_pos_bound; lia).
    assert (Hup : forall v : Z,
               v = mr * 2 ^ (e1 + 1074) ->
               shr_m R * 2 ^ (e1 + 1074) <= v
               <= shr_m R * 2 ^ (e1 + 1074)
                  + (if Zpos mz mod 2 ^ n * 2 ^ (ez + 1074) =? 0
                     then 0 else 2 ^ (e1 + 1074))).
    { intros v ->.
      assert (Hge : 0 < 2 ^ (e1 + 1074)) by (apply pow2_pos; lia).
      destruct Hround as [E|E]; rewrite E.
      - destruct (_ =? 0); lia.
      - specialize (Hinex E).
        destruct (Z.eqb_spec (Zpos mz mod 2 ^ n * 2 ^ (ez + 1074)) 0)
          as [E0|E0].
        + apply Z.mul_eq_0 in E0. lia.
        + lia. }
    destruct (Z.eq_dec mr (2 ^ 53)) as [Ec|Ec].
    + (* the rounded mantissa is 2^53: one more shift *)
      rewrite Ec.
      assert (H2 : shr_fexp prec emax (2 ^ 53) e1 loc_Exact
                   = (Build_shr_record (2 ^ 52) false false, e1 + 1)).
      { unfold shr_fexp. cbn [shr_record_of_loc].
        change (Zdigits2 (2 ^ 53)) with 54.
        rewrite fexp_eq.
        replace (Z.max (54 + e1 - 53) (-1074) - e1) with 1 by lia.
        reflexivity. }
      rewrite H2. cbn [shr_m]. change (2 ^ 52) with (Zpos (2 ^ 52)).
      exists (2 ^ 52)%positive, (e1 + 1).
      split; [lia|]. split; [|split; [|reflexivity]].
      * unfold ue. rewrite Z.log2_mul_pow2 by lia.
        change (Z.log2 (Zpos (2 ^ 52))) with 52. lia.
      * apply Hup. rewrite Ec.
        replace (e1 + 1 + 1074) with (Z.succ (e1 + 1074)) by lia.
        rewrite Z.pow_succ_r by lia.
        change (Zpos (2 ^ 52)) with (2 ^ 52). change (2 ^ 53) with (2 * 2 ^ 52).
        lia.
    + assert (Hmr : 2 ^ 52 <= mr < 2 ^ 53) by lia.
      destruct mr as [|q|q] eqn:Eq; try lia.
      assert (Hlq : Z.log2 (Zpos q) = 52) by (apply log2_faixa; lia).
      rewrite shr_fexp_parado
        by (rewrite fexp_eq, digits2_pos_log2, Hlq; lia).
      cbn [shr_m]. exists q, e1.
      split; [lia|]. split; [|split; [|reflexivity]].
      * unfold ue. rewrite Z.log2_mul_pow2 by lia. lia.
      * apply Hup. reflexivity.
Qed.

Lemma iter_xO (p d : positive) :
  Zpos (Pos.iter xO p d) = Zpos p * 2 ^ Zpos d.
Proof.
  induction d as [|d IH] using Pos.peano_ind.
  - simpl. lia.
  - rewrite Pos.iter_succ, Pos2Z.inj_xO, IH, Pos2Z.inj_succ.
    rewrite Z.pow_succ_r by lia. lia.
Qed.

Lemma shl_align_spec (m : positive) (e e' : Z) :
  snd (shl_align m e e') = Z.min e e' /\
  Zpos (fst (shl_align m e e'))
  = Zpos m * 2 ^ (e - snd (shl_align m e e')).
Proof.
  unfold shl_align. destruct (e' - e) as [|d|d] eqn:E; cbn [fst snd].
  - split; [lia|]. rewrite Z.sub_diag. lia.
  - split; [lia|]. rewrite Z.sub_diag. lia.
  - split; [lia|]. rewrite iter_xO. do 2 f_equal. lia.
Qed.

Lemma binary_round_spec (s : bool) (P : positive) (e : Z) :
  -1074 <= e ->
  exists (m' : positive) (e' : Z),
    -1074 <= e' /\
    ue (Zpos m' * 2 ^ (e' + 1074)) = e' + 1074 /\
    (let N := Zpos P * 2 ^ (e + 1074) in
     let g := 2 ^ ue N in
     N / g * g <= Zpos m' * 2 ^ (e' + 1074)
       <= N / g * g + (if N mod g =? 0 then 0 else g)) /\
    binary_round prec emax s P e
    = if e' <=? 971 then S754_finite s m' e' else S754_infinity s.
Proof.
  intros He. unfold binary_round.
  set (e0 := fexp prec emax (Zpos (digits2_pos P) + e)).
  destruct (shl_align_spec P e e0) as [Hs Hf].
  destruct (shl_align P e e0) as [mz ez]. cbn [fst snd] in Hs, Hf.
  assert (He0 : -1074 <= e0) by (unfold e0; rewrite fexp_eq; lia).
  assert (Hez : -1074 <= ez) by lia.
  assert (HN : Zpos mz * 2 ^ (ez + 1074) = Zpos P * 2 ^ (e + 1074)).
  { rewrite Hf, <- Z.mul_assoc, <- Z.pow_add_r by lia. do 2 f_equal. lia. }
  assert (Hd : Zpos (digits2_pos mz) + ez = Zpos (digits2_pos P) + e).
  { rewrite !digits2_pos_log2, Hf, Z.log2_mul_pow2 by lia. lia. }
  destruct (binary_round_aux_spec s mz ez Hez) as (m' & e' & H).
  - rewrite Hd. fold e0. lia.
  - rewrite HN in H. exists m', e'. exact H.
Qed.

Lemma valido_finito (s : bool) (m : positive) (e : Z) :
  valid_binary (S754_finite s m e) = true <->
  -1074 <= e <= 971 /\ ue (Zpos m * 2 ^ (e + 1074)) = e + 1074.
Proof.
  unfold SpecFloat.valid_binary, bounded.
  rewrite andb_true_iff, canonico_ue, Z.leb_le.
  change (emax - prec) with 971. tauto.
Qed.

(** On valid numbers the comparison compares the values. *)
Lemma SFcompare_escalado (x y : spec_float) :
  finito x = true -> finito y = true ->
  valid_binary x = true -> valid_binary y = true ->
  SFcompare x y = Some (escalado x ?= escalado y).
Proof.
  destruct x as [sx|sx| |sx mx ex], y as [sy|sy| |sy my ey];
    try discriminate; intros _ _ Hx Hy.
  - reflexivity.
  - apply valido_finito in Hy. destruct Hy as [Hey _].
    pose proof (pow2_pos (ey + 1074) ltac:(lia)).
    cbn [SFcompare escalado]. destruct sy; cbn [cond_Zopp]; f_equal;
      symmetry; [apply Z.compare_gt_iff | apply Z.compare_lt_iff]; lia.
  - apply valido_finito in Hx. destruct Hx as [Hex _].
    pose proof (pow2_pos (ex + 1074) ltac:(lia)).
    cbn [SFcompare escalado]. destruct sx; cbn [cond_Zopp]; f_equal;
      symmetry; [apply Z.compare_lt_iff | apply Z.compare_gt_iff]; lia.
  - apply valido_finito in Hx, Hy.
    destruct Hx as [Hex Hux], Hy as [Hey Huy].
    pose proof (pow2_pos (ex + 1074) ltac:(lia)).
    pose proof (pow2_pos (ey + 1074) ltac:(lia)).
    pose proof (compara_canonicos mx my _ _ Hux Huy) as Hc.
    assert (Hcmp : (ex + 1074 ?= ey + 1074) = (ex ?= ey))
      by (rewrite !(Z.add_comm _ 1074); apply Z.add_compare_mono_l).
    rewrite Hcmp in Hc.
    cbn [SFcompare escalado]. destruct sx, sy; cbn [cond_Zopp]; f_equal.
    + rewrite Z.compare_opp.
      rewrite (Z.compare_antisym (Zpos mx * 2 ^ (ex + 1074))), Hc.
      destruct (ex ?= ey); reflexivity.
    + symmetry. apply Z.compare_lt_iff. lia.
    + symmetry. apply Z.compare_gt_iff. lia.
    + rewrite Hc. destruct (ex ?= ey); reflexivity.
Qed.

Lemma SFleb_escalado (x y : spec_float) :
  finito x = true -> finito y = true ->
  valid_binary x = true -> valid_binary y = true ->
  SFleb x y = (escalado x <=? escalado y).
Proof.
  intros Fx Fy Vx Vy. unfold SFleb.
  rewrite (SFcompare_escalado x y Fx Fy Vx Vy). unfold Z.leb.
  destruct (escalado x ?= escalado y); reflexivity.
Qed.

Lemma SFltb_escalado (x y : spec_float) :
  finito x = true -> finito y = true ->
  valid_binary x = true -> valid_binary y = true ->
  SFltb x y = (escalado x <? escalado y).
Proof.
  intros Fx Fy Vx Vy. unfold SFltb.
  rewrite (SFcompare_escalado x y Fx Fy Vx Vy). unfold Z.ltb.
  destruct (escalado x ?= escalado y); reflexivity.
Qed.

Lemma representavel (s : bool) (m : positive) (e : Z) :
  valid_binary (S754_finite s m e) = true ->
  0 < Zpos m * 2 ^ (e + 1074) /\
  (Zpos m * 2 ^ (e + 1074)) mod 2 ^ ue (Zpos m * 2 ^ (e + 1074)) = 0.
Proof.
  intros H. apply valido_finito in H. destruct H as [He Hu].
  pose proof (pow2_pos (e + 1074) ltac:(lia)).
  split; [lia|]. rewrite Hu. apply Z.mod_mul. lia.
Qed.

(** Rounding is monotone and leaves representable numbers alone: the
    result of [binary_normalize] is not below a number that is not above
    the exact value, and not above a number that is not below it. *)
Lemma normaliza_cotas (M e : Z) (y : spec_float) :
  -1074 <= e ->
  finito y = true -> valid_binary y = true ->
  (escalado y <= M * 2 ^ (e + 1074) ->
   SFleb y (binary_normalize prec emax M e false) = true) /\
  (M * 2 ^ (e + 1074) <= escalado y ->
   SFleb (binary_normalize prec emax M e false) y = true).
Proof.
  intros He Fy Vy.
  pose proof (pow2_pos (e + 1074) ltac:(lia)) as Hc.
  destruct M as [|P|P]; cbn [binary_normalize].
  - rewrite !SFleb_escalado by (assumption || reflexivity).
    cbn [escalado]. rewrite !Z.leb_le. lia.
  - destruct (binary_round_spec false P e He) as (m' & e' & He' & Hu & Hb & ->).
    cbv zeta in Hb.
    set (N := Zpos P * 2 ^ (e + 1074)) in *.
    assert (HN : 0 < N) by (unfold N; lia).
    pose proof (pow2_pos (e' + 1074) ltac:(lia)) as Hc'.
    split; intros Hy.
    + destruct (Z.leb_spec e' 971) as [Hle|Hgt].
      * assert (Vr : valid_binary (S754_finite false m' e') = true)
          by (apply valido_finito; lia).
        rewrite SFleb_escalado by (assumption || reflexivity).
        apply Z.leb_le. cbn [escalado cond_Zopp].
        destruct y as [sy|sy| |sy my ey]; try discriminate;
          cbn [escalado] in *; [lia|].
        destruct (representavel _ _ _ Vy) as [Hpos Hrep].
        destruct sy; cbn [cond_Zopp] in *; [lia|].
        pose proof (piso_representavel _ N Hpos Hrep Hy). lia.
      * destruct y as [sy|sy| |sy my ey]; try discriminate;
          [reflexivity | destruct sy; reflexivity].
    + destruct y as [sy|sy| |sy my ey]; try discriminate;
        cbn [escalado] in Hy; [lia|].
      destruct (representavel _ _ _ Vy) as [Hpos Hrep].
      destruct sy; cbn [cond_Zopp] in Hy; [lia|].
      pose proof (teto_representavel _ N HN Hy Hrep) as Hteto.
      assert (Hn' : Zpos m' * 2 ^ (e' + 1074) <= Zpos my * 2 ^ (ey + 1074))
        by lia.
      pose proof Vy as Vy'. apply valido_finito in Vy'.
      destruct Vy' as [Hey Huy].
      assert (Hee : e' <= ey).
      { pose proof (compara_canonicos m' my _ _ Hu Huy) as Hcmp.
        destruct (Z.compare_spec (e' + 1074) (ey + 1074)) as [E|E|E];
          [lia | lia |].
        apply Z.compare_gt_iff in Hcmp. lia. }
      destruct (Z.leb_spec e' 971) as [Hle|Hgt]; [|lia].
      assert (Vr : valid_binary (S754_finite false m' e') = true)
        by (apply valido_finito; lia).
      rewrite SFleb_escalado by (assumption || reflexivity).
      apply Z.leb_le. cbn [escalado cond_Zopp]. exact Hn'.
  - destruct (binary_round_spec true P e He) as (m' & e' & He' & Hu & Hb & ->).
    cbv zeta in Hb.
    set (N := Zpos P * 2 ^ (e + 1074)) in *.
    assert (HN : 0 < N) by (unfold N; lia).
    assert (HM : Zneg P * 2 ^ (e + 1074) = - N) by (unfold N; lia).
    rewrite HM.
    pose proof (pow2_pos (e' + 1074) ltac:(lia)) as Hc'.
    split; intros Hy.
    + destruct y as [sy|sy| |sy my ey]; try discriminate;
        cbn [escalado] in Hy; [lia|].
      destruct (representavel _ _ _ Vy) as [Hpos Hrep].
      destruct sy; cbn [cond_Zopp] in Hy; [|lia].
      assert (Hy' : N <= Zpos my * 2 ^ (ey + 1074)) by lia.
      pose proof (teto_representavel _ N HN Hy' Hrep) as Hteto.
      assert (Hn' : Zpos m' * 2 ^ (e' + 1074) <= Zpos my * 2 ^ (ey + 1074))
        by lia.
      pose proof Vy as Vy'. apply valido_finito in Vy'.
      destruct Vy' as [Hey Huy].
      assert (Hee : e' <= ey).
      { pose proof (compara_canonicos m' my _ _ Hu Huy) as Hcmp.
        destruct (Z.compare_spec (e' + 1074) (ey + 1074)) as [E|E|E];
          [lia | lia |].
        apply Z.compare_gt_iff in Hcmp. lia. }
      destruct (Z.leb_spec e' 971) as [Hle|Hgt]; [|lia].
      assert (Vr : valid_binary (S754_finite true m' e') = true)
        by (apply valido_finito; lia).
      rewrite SFleb_escalado by (assumption || reflexivity).
      apply Z.leb_le. cbn [escalado cond_Zopp]. lia.
    + destruct (Z.leb_spec e' 971) as [Hle|Hgt].
      * assert (Vr : valid_binary (S754_finite true m' e') = true)
          by (apply valido_finito; lia).
        rewrite SFleb_escalado by (assumption || reflexivity).
        apply Z.leb_le. cbn [escalado cond_Zopp].
        destruct y as [sy|sy| |sy my ey]; try discriminate;
          cbn [escalado] in *; [lia|].
        destruct (representavel _ _ _ Vy) as [Hpos Hrep].
        destruct sy; cbn [cond_Zopp] in *; [|lia].
        assert (Hy' : Zpos my * 2 ^ (ey + 1074) <= N) by lia.
        pose proof (piso_representavel _ N Hpos Hrep Hy'). lia.
      * destruct y as [sy|sy| |sy my ey]; try discriminate;
          [reflexivity | destruct sy; reflexivity].
Qed.

Lemma alinhado (m : positive) (e ez : Z) :
  -1074 <= ez -> ez <= e ->
  Zpos (fst (shl_align m e ez)) * 2 ^ (ez + 1074) = Zpos m * 2 ^ (e + 1074).
Proof.
  intros H1 H2. destruct (shl_align_spec m e ez) as [Hs Hf].
  rewrite Hf, Hs, Z.min_r by lia.
  rewrite <- Z.mul_assoc, <- Z.pow_add_r by lia. do 2 f_equal. lia.
Qed.

Lemma escalado_valido_zero (s : bool) :
  finito (S754_zero s) = true /\ valid_binary (S754_zero s) = true /\
  escalado (S754_zero s) = 0.
Proof. repeat split. Qed.

(** The difference of two finite numbers, rounded, against a third. *)
Lemma SFsub_cotas (x y z : spec_float) :
  finito x = true -> finito y = true -> finito z = true ->
  valid_binary x = true -> valid_binary y = true -> valid_binary z = true ->
  (escalado z <= escalado x - escalado y ->
   SFleb z (SFsub prec emax x y) = true) /\
  (escalado x - escalado y <= escalado z ->
   SFleb (SFsub prec emax x y) z = true).
Proof.
  intros Fx Fy Fz Vx Vy Vz.
  destruct x as [sx|sx| |sx mx ex], y as [sy|sy| |sy my ey];
    try discriminate.
  - assert (F : forall s, finito (S754_zero s) = true) by reflexivity.
    assert (V : forall s, valid_binary (S754_zero s) = true) by reflexivity.
    cbn [SFsub]. destruct sx, sy;
      rewrite !SFleb_escalado by (assumption || reflexivity);
      cbn [escalado]; rewrite !Z.leb_le; lia.
  - cbn [SFsub].
    assert (V : valid_binary (S754_finite (negb sy) my ey) = true)
      by exact Vy.
    rewrite !SFleb_escalado by (assumption || reflexivity).
    cbn [escalado]. rewrite !Z.leb_le.
    destruct sy; cbn [negb cond_Zopp]; lia.
  - cbn [SFsub].
    rewrite !SFleb_escalado by (assumption || reflexivity).
    cbn [escalado]. rewrite !Z.leb_le. lia.
  - cbn [SFsub]. cbv zeta.
    pose proof Vx as Vx'. pose proof Vy as Vy'.
    apply valido_finito in Vx', Vy'.
    destruct Vx' as [Hex _], Vy' as [Hey _].
    set (ez := Z.min ex ey).
    assert (Hez : -1074 <= ez) by (unfold ez; lia).
    pose proof (alinhado mx ex ez Hez ltac:(unfold ez; lia)) as Hax.
    pose proof (alinhado my ey ez Hez ltac:(unfold ez; lia)) as Hay.
    set (ax := Zpos (fst (shl_align mx ex ez))) in *.
    set (ay := Zpos (fst (shl_align my ey ez))) in *.
    assert (HM : (cond_Zopp sx ax - cond_Zopp sy ay) * 2 ^ (ez + 1074)
                 = escalado (S754_finite sx mx ex)
                   - escalado (S754_finite sy my ey)).
    { cbn [escalado]. rewrite <- Hax, <- Hay.
      destruct sx, sy; cbn [cond_Zopp]; lia. }
    rewrite <- HM. apply normaliza_cotas; assumption.
Qed.

(** The sum of two finite numbers, rounded, against a third. *)
Lemma SFadd_cotas (x y z : spec_float) :
  finito x = true -> finito y = true -> finito z = true ->
  valid_binary x = true -> valid_binary y = true -> valid_binary z = true ->
  (escalado z <= escalado x + escalado y ->
   SFleb z (SFadd prec emax x y) = true) /\
  (escalado x + escalado y <= escalado z ->
   SFleb (SFadd prec emax x y) z = true).
Proof.
  intros Fx Fy Fz Vx Vy Vz.
  destruct x as [sx|sx| |sx mx ex], y as [sy|sy| |sy my ey];
    try discriminate.
  - cbn [SFadd]. destruct sx, sy;
      rewrite !SFleb_escalado by (assumption || reflexivity);
      cbn [escalado]; rewrite !Z.leb_le; lia.
  - cbn [SFadd].
    rewrite !SFleb_escalado by (assumption || reflexivity).
    cbn [escalado]. rewrite !Z.leb_le. lia.
  - cbn [SFadd].
    rewrite !SFleb_escalado by (assumption || reflexivity).
    cbn [escalado]. rewrite !Z.leb_le. lia.
  - cbn [SFadd]. cbv zeta.
    pose proof Vx as Vx'. pose proof Vy as Vy'.
    apply valido_finito in Vx', Vy'.
    destruct Vx' as [Hex _], Vy' as [Hey _].
    set (ez := Z.min ex ey).
    assert (Hez : -1074 <= ez) by (unfold ez; lia).
    pose proof (alinhado mx ex ez Hez ltac:(unfold ez; lia)) as Hax.
    pose proof (alinhado my ey ez Hez ltac:(unfold ez; lia)) as Hay.
    set (ax := Zpos (fst (shl_align mx ex ez))) in *.
    set (ay := Zpos (fst (shl_align my ey ez))) in *.
    assert (HM : (cond_Zopp sx ax + cond_Zopp sy ay) * 2 ^ (ez + 1074)
                 = escalado (S754_finite sx mx ex)
                   + escalado (S754_finite sy my ey)).
    { cbn [escalado]. rewrite <- Hax, <- Hay.
      destruct sx, sy; cbn [cond_Zopp]; lia. }
    rewrite <- HM. apply normaliza_cotas; assumption.
Qed.

Lemma SFleb_nao_nan (a b : spec_float) :
  SFleb a b = true -> a <> S754_nan /\ b <> S754_nan.
Proof.
  unfold SFleb. destruct a, b; simpl; try discriminate;
    split; discriminate.
Qed.

Lemma SFleb_ltb_trans (a b c : spec_float) :
  SFleb a b = true -> SFltb b c = true -> SFltb a c = true.
Proof.
  intros Hab Hbc. destruct (SFltb a c) eqn:E; [reflexivity|].
  destruct (SFleb_nao_nan _ _ Hab) as [Ha _].
  assert (Hc : c <> S754_nan).
  { intros ->. unfold SFltb in Hbc. destruct b; discriminate. }
  pose proof (SFltb_false_leb a c Ha Hc E) as Hca.
  pose proof (SFleb_trans c a b Hca Hab) as Hcb.
  rewrite (SFltb_leb_false b c Hbc) in Hcb. discriminate.
Qed.

Lemma nao_nan_iff (x : float) :
  nao_nan x = true <-> Prim2SF x <> S754_nan.
Proof.
  split; [apply nao_nan_SF|].
  intros H. unfold nao_nan. rewrite FloatAxioms.eqb_spec.
  pose proof (SFleb_refl (Prim2SF x) H) as Hr.
  pose proof (SFcompare_antisym (Prim2SF x) (Prim2SF x)) as Ha.
  unfold SFleb in Hr. unfold SFeqb.
  destruct (SFcompare (Prim2SF x) (Prim2SF x)) as [[]|];
    simpl in Ha; congruence.
Qed.

Lemma finito_ou (x : spec_float) :
  x <> S754_nan ->
  finito x = true \/ exists s, x = S754_infinity s.
Proof.
  destruct x as [s|s| |s m e]; intros H; try (left; reflexivity).
  - right. exists s. reflexivity.
  - contradiction.
Qed.

(** The minimum distance 0.2 as a binary64 number. *)
Lemma distancia_SF :
  Prim2SF (literal distancia_minima_padrao)
  = S754_finite false 7205759403792794 (-55).
Proof. vm_compute. reflexivity. Qed.

(** Adding the minimum distance never gives a smaller number. *)
Lemma soma_nao_desce (a : float) :
  nao_nan a = true ->
  PrimFloat.leb a (PrimFloat.add a (literal distancia_minima_padrao)) = true.
Proof.
  intros Ha. apply nao_nan_SF in Ha.
  rewrite FloatAxioms.leb_spec, FloatAxioms.add_spec, distancia_SF.
  pose proof (FloatAxioms.Prim2SF_valid a) as Va.
  destruct (finito_ou _ Ha) as [Fa|[s Es]].
  - apply (SFadd_cotas (Prim2SF a) _ (Prim2SF a));
      try assumption; try reflexivity.
    cbn [escalado cond_Zopp].
    pose proof (pow2_pos (-55 + 1074) ltac:(lia)). lia.
  - rewrite Es. destruct s; reflexivity.
Qed.

(** A value that is kept is not below its predecessor: the difference the
    code computes is not below 0.2 only if the exact one is above 0. *)
Lemma mantida_nao_desce (s o : float) :
  nao_nan s = true -> nao_nan o = true ->
  PrimFloat.ltb (PrimFloat.sub s o) (literal distancia_minima_padrao) = false ->
  PrimFloat.leb o s = true.
Proof.
  intros Hs Ho. apply nao_nan_SF in Hs, Ho.
  rewrite FloatAxioms.ltb_spec, FloatAxioms.sub_spec, distancia_SF,
    FloatAxioms.leb_spec.
  pose proof (FloatAxioms.Prim2SF_valid s) as Vs.
  pose proof (FloatAxioms.Prim2SF_valid o) as Vo.
  destruct (finito_ou _ Hs) as [Fs|[ss Es]],
           (finito_ou _ Ho) as [Fo|[so Eo]].
  - intros Hlt.
    rewrite SFleb_escalado by assumption. apply Z.leb_le.
    destruct (Z_le_gt_dec (escalado (Prim2SF o)) (escalado (Prim2SF s)))
      as [H|H]; [exact H|].
    exfalso.
    assert (Hz : SFleb (SFsub prec emax (Prim2SF s) (Prim2SF o))
                   (S754_zero false) = true).
    { apply (SFsub_cotas _ _ (S754_zero false));
        try assumption; try reflexivity.
      cbn [escalado]. lia. }
    assert (Hc : SFltb (S754_zero false)
                   (S754_finite false 7205759403792794 (-55)) = true)
      by reflexivity.
    pose proof (SFleb_ltb_trans _ _ _ Hz Hc) as Hcontra.
    unfold SF64sub in Hlt. congruence.
  - rewrite Eo in *. destruct so.
    + intros _. destruct (Prim2SF s) as [?|?| |[] ? ?];
        try discriminate; try reflexivity.
    + destruct (Prim2SF s) as [?|?| |[] ? ?]; try discriminate;
        intros Hlt; vm_compute in Hlt; discriminate Hlt.
  - rewrite Es in *. destruct ss.
    + destruct (Prim2SF o) as [?|?| |[] ? ?]; try discriminate;
        intros Hlt; vm_compute in Hlt; discriminate Hlt.
    + intros _. destruct (Prim2SF o) as [?|?| |[] ? ?];
        try discriminate; reflexivity.
  - rewrite Es, Eo. destruct ss, so; intros Hlt;
      try reflexivity; vm_compute in Hlt; discriminate Hlt.
Qed.

(** The tolerance 0.3 as a binary64 number, and the next one. *)
Lemma tolerancia_SF :
  Prim2SF (literal (A:=float) 0.3%Q)
  = S754_finite false 5404319552844595 (-54).
Proof. vm_compute. reflexivity. Qed.

(** [abs r <= t] for a positive [t]. *)
Lemma SFleb_abs (r : spec_float) (m : positive) (e : Z) :
  SFleb (SFabs r) (S754_finite false m e)
  = SFleb r (S754_finite false m e) && SFleb (S754_finite true m e) r.
Proof.
  destruct r as [s|s| |s mr er]; try reflexivity.
  - destruct s; reflexivity.
  - unfold SFleb. cbn [SFabs SFcompare]. destruct s; [|
      destruct (er ?= e); try reflexivity;
      destruct (Pos.compare_cont Eq mr m); reflexivity].
    rewrite (Z.compare_antisym er e).
    destruct (er ?= e); cbn [CompOpp]; try reflexivity.
    change (Pos.compare_cont Eq) with Pos.compare.
    rewrite (Pos.compare_antisym mr m).
    destruct (mr ?= m)%positive; reflexivity.
Qed.

Lemma mantissa_cota (s : bool) (m : positive) (e : Z) :
  valid_binary (S754_finite s m e) = true ->
  Zpos m * 2 ^ (e + 1074) < 2 ^ (e + 1074 + 53).
Proof.
  intros H. apply valido_finito in H. destruct H as [He Hu].
  pose proof (pow2_pos (e + 1074) ltac:(lia)) as Hc.
  assert (Hn : 0 < Zpos m * 2 ^ (e + 1074)) by lia.
  destruct (Z.log2_spec _ Hn) as [_ Hhi].
  assert (Hl : Z.log2 (Zpos m * 2 ^ (e + 1074)) <= e + 1074 + 52)
    by (unfold ue in Hu; lia).
  assert (2 ^ Z.succ (Z.log2 (Zpos m * 2 ^ (e + 1074)))
          <= 2 ^ (e + 1074 + 53))
    by (apply Z.pow_le_mono_r; clear - Hl; lia).
  lia.
Qed.

(** A number within reach of a reference that is at least 1 is a multiple
    of 2^-54, as the reference is. *)
Lemma multiplo_perto (x : spec_float) (my : positive) (ey : Z) :
  finito x = true -> valid_binary x = true ->
  valid_binary (S754_finite false my ey) = true ->
  -54 <= ey -> 2 ^ 1074 <= Zpos my * 2 ^ (ey + 1074) ->
  let v := escalado x - Zpos my * 2 ^ (ey + 1074) in
  (exists w, v = w * 2 ^ 1020) \/ 3 * 2 ^ 1072 <= Z.abs v.
Proof.
  intros Fx Vx Vy Hey Hy1. cbv zeta.
  assert (Hmul : forall (m : positive) (e : Z), -54 <= e ->
            exists k, Zpos m * 2 ^ (e + 1074) = k * 2 ^ 1020).
  { intros m e He. exists (Zpos m * 2 ^ (e + 54)).
    rewrite <- Z.mul_assoc, <- Z.pow_add_r by lia. do 2 f_equal. lia. }
  destruct (Hmul my ey Hey) as [ky Hky].
  destruct x as [sx|sx| |sx mx ex]; try discriminate; cbn [escalado].
  - left. exists (- ky). lia.
  - destruct (Z_le_gt_dec (-54) ex) as [Hex|Hex].
    + left. destruct (Hmul mx ex Hex) as [kx Hkx].
      destruct sx; cbn [cond_Zopp]; rewrite Hkx, Hky;
        [exists (- kx - ky) | exists (kx - ky)]; lia.
    + right. pose proof (mantissa_cota _ _ _ Vx) as Hmx.
      pose proof Vx as Vx'. apply valido_finito in Vx'.
      assert (Hp : 2 ^ (ex + 1074 + 53) <= 2 ^ 1072)
        by (apply Z.pow_le_mono_r; lia).
      pose proof (pow2_pos (ex + 1074) ltac:(lia)).
      change (2 ^ 1074) with (4 * 2 ^ 1072) in Hy1.
      destruct sx; cbn [cond_Zopp]; lia.
Qed.

(** The test of line 55 on the numbers themselves: for a reference that is
    at least 1, a finite measured diameter passes exactly when the exact
    difference is at most 3/10 in absolute value. *)
Lemma qualifica_escalado (x y : float) (my : positive) (ey : Z) :
  Prim2SF y = S754_finite false my ey ->
  -54 <= ey -> 2 ^ 1074 <= Zpos my * 2 ^ (ey + 1074) ->
  finito (Prim2SF x) = true ->
  (qualifica x y = true <->
   10 * Z.abs (escalado (Prim2SF x) - escalado (Prim2SF y)) <= 3 * 2 ^ 1074).
Proof.
  intros Ey Hey Hy1 Fx.
  pose proof (FloatAxioms.Prim2SF_valid x) as Vx.
  pose proof (FloatAxioms.Prim2SF_valid y) as Vy.
  unfold qualifica. cbn [menor_igual absoluto subtrai Binary64].
  rewrite FloatAxioms.leb_spec, FloatAxioms.abs_spec, FloatAxioms.sub_spec,
    tolerancia_SF, SFleb_abs.
  unfold SF64sub.
  assert (Fy : finito (Prim2SF y) = true) by (rewrite Ey; reflexivity).
  set (X := Prim2SF x) in *. set (Y := Prim2SF y) in *.
  set (T := S754_finite false 5404319552844595 (-54)).
  set (T' := S754_finite false 5404319552844596 (-54)).
  set (nT := S754_finite true 5404319552844595 (-54)).
  set (nT' := S754_finite true 5404319552844596 (-54)).
  assert (ET : escalado T = 5404319552844595 * 2 ^ 1020) by reflexivity.
  assert (ET' : escalado T' = 5404319552844596 * 2 ^ 1020) by reflexivity.
  assert (EnT : escalado nT = - (5404319552844595 * 2 ^ 1020)) by reflexivity.
  assert (EnT' : escalado nT' = - (5404319552844596 * 2 ^ 1020)) by reflexivity.
  assert (Hk : 0 < 2 ^ 1020) by (apply pow2_pos; lia).
  assert (H1074 : 2 ^ 1074 = 2 ^ 54 * 2 ^ 1020)
    by (rewrite <- Z.pow_add_r by lia; reflexivity).
  assert (H1072 : 2 ^ 1072 = 2 ^ 52 * 2 ^ 1020)
    by (rewrite <- Z.pow_add_r by lia; reflexivity).
  assert (EY : escalado Y = Zpos my * 2 ^ (ey + 1074))
    by (rewrite Ey; reflexivity).
  pose proof (multiplo_perto X my ey Fx Vx
                ltac:(rewrite <- Ey; exact Vy) Hey Hy1) as Hmult.
  cbv zeta in Hmult. rewrite <- EY in Hmult.
  set (v := escalado X - escalado Y) in *.
  destruct (SFsub_cotas X Y T Fx Fy eq_refl Vx Vy eq_refl) as [_ HT].
  destruct (SFsub_cotas X Y nT Fx Fy eq_refl Vx Vy eq_refl) as [HnT _].
  destruct (SFsub_cotas X Y T' Fx Fy eq_refl Vx Vy eq_refl) as [HT' _].
  destruct (SFsub_cotas X Y nT' Fx Fy eq_refl Vx Vy eq_refl) as [_ HnT'].
  fold v in HT, HnT, HT', HnT'.
  change (2 ^ 54) with 18014398509481984 in H1074.
  change (2 ^ 52) with 4503599627370496 in H1072.
  split.
  - intros Hq. apply andb_true_iff in Hq. destruct Hq as [Hq1 Hq2].
    destruct (Z_le_gt_dec (10 * Z.abs v) (3 * 2 ^ 1074)) as [H|H];
      [exact H|]. exfalso.
    destruct (Z_le_gt_dec 0 v) as [Hv|Hv].
    + assert (Hge : escalado T' <= v).
      { rewrite ET'. destruct Hmult as [[w Hw]|Hbig]; [|lia].
        rewrite Hw in *. rewrite Z.abs_eq in H by lia.
        assert (5404319552844596 <= w) by nia. nia. }
      pose proof (SFleb_trans _ _ _ (HT' Hge) Hq1) as Hc.
      assert (Hlt : SFltb T T' = true) by reflexivity.
      rewrite (SFltb_leb_false _ _ Hlt) in Hc. discriminate.
    + assert (Hle : v <= escalado nT').
      { rewrite EnT'. destruct Hmult as [[w Hw]|Hbig]; [|lia].
        rewrite Hw in *. rewrite Z.abs_neq in H by lia.
        assert (w <= - 5404319552844596) by nia. nia. }
      pose proof (SFleb_trans _ _ _ Hq2 (HnT' Hle)) as Hc.
      assert (Hlt : SFltb nT' nT = true) by reflexivity.
      rewrite (SFltb_leb_false _ _ Hlt) in Hc. discriminate.
  - intros H.
    assert (Hw : exists w, v = w * 2 ^ 1020).
    { destruct Hmult as [Hw|Hbig]; [exact Hw|]. lia. }
    destruct Hw as [w Hw]. rewrite Hw in H.
    assert (Habs : Z.abs w <= 5404319552844595).
    { rewrite Z.abs_mul, (Z.abs_eq (2 ^ 1020)) in H by lia. nia. }
    apply andb_true_iff. split.
    + apply HT. rewrite ET, Hw. nia.
    + apply HnT. rewrite EnT, Hw. nia.
Qed.

Lemma potencia_escalada (e : Z) :
  -1074 <= e ->
  (inject_Z (2 ^ (e + 1074)) == 2 ^ e * inject_Z (2 ^ 1074))%Q.
Proof.
  intros He. rewrite !Zpower_Qpower by lia.
  rewrite Qpower_plus by discriminate. reflexivity.
Qed.

Lemma valor_SF_escalado (x : spec_float) (q : Q) :
  valid_binary x = true -> valor_SF x = Some q ->
  finito x = true /\
  (q * inject_Z (2 ^ 1074) == inject_Z (escalado x))%Q.
Proof.
  destruct x as [s|s| |s m e]; try discriminate; intros V [= <-].
  - split; [reflexivity|]. cbn [escalado]. ring.
  - split; [reflexivity|]. apply valido_finito in V. destruct V as [He _].
    cbn [escalado]. unfold valor_finito.
    pose proof (potencia_escalada e ltac:(lia)) as Hp.
    destruct s; cbn [cond_Zopp].
    + rewrite inject_Z_opp, inject_Z_mult, Hp. ring.
    + rewrite inject_Z_mult, Hp. ring.
Qed.

Lemma desvio_escalado (t : Q) (v k : Z) :
  0 < k -> (t * inject_Z k == inject_Z v)%Q ->
  ((Qabs t <= 3 # 10)%Q <-> 10 * Z.abs v <= 3 * k).
Proof.
  intros Hk Ht.
  assert (HK : (0 < inject_Z k)%Q)
    by (change 0%Q with (inject_Z 0); rewrite <- Zlt_Qlt; exact Hk).
  rewrite Qabs_Qle_condition.
  rewrite <- (Qmult_le_r _ _ _ HK), <- (Qmult_le_r t _ _ HK), Ht.
  assert (E1 : (- (3 # 10) * inject_Z k <= inject_Z v)%Q
               <-> - (3 * k) <= 10 * v).
  { rewrite (Zle_Qle (- (3 * k))), inject_Z_opp, !inject_Z_mult.
    change (inject_Z 3) with 3%Q. change (inject_Z 10) with 10%Q.
    split; intros H; lra. }
  assert (E2 : (inject_Z v <= (3 # 10) * inject_Z k)%Q
               <-> 10 * v <= 3 * k).
  { rewrite (Zle_Qle (10 * v)), !inject_Z_mult.
    change (inject_Z 3) with 3%Q. change (inject_Z 10) with 10%Q.
    split; intros H; lra. }
  rewrite E1, E2. lia.
Qed.

(** The test of line 55 in binary64, on the numbers: against a reference
    that is at least 1, a finite measured diameter passes exactly when it
    is at most 3/10 away from the reference, and no other value passes. *)
Lemma qualifica_valor (x : float) (ref : Q) :
  referencia_confere ref = true ->
  exists d : Q,
    valor (literal ref) = Some d /\
    match valor x with
    | Some q =>
        qualifica x (literal ref) = true <-> (Qabs (q - d) <= 3 # 10)%Q
    | None => qualifica x (literal ref) = false
    end.
Proof.
  unfold referencia_confere, valor.
  pose proof (FloatAxioms.Prim2SF_valid (literal (A:=float) ref)) as Vy.
  pose proof (FloatAxioms.Prim2SF_valid x) as Vx.
  destruct (Prim2SF (literal (A:=float) ref)) as [?|?| |[] my ey] eqn:Ey;
    try discriminate.
  rewrite andb_true_iff, Z.leb_le, Z.leb_le. intros [Hey Hy1].
  eexists. split; [reflexivity|].
  destruct (valor_SF (Prim2SF x)) as [q|] eqn:Eq.
  - destruct (valor_SF_escalado _ _ Vx Eq) as [Fx Hq].
    destruct (valor_SF_escalado (S754_finite false my ey) _ Vy eq_refl)
      as [_ Hd].
    rewrite (qualifica_escalado x _ my ey Ey Hey Hy1 Fx), Ey.
    symmetry. apply desvio_escalado; [apply pow2_pos; lia|].
    unfold Z.sub. rewrite inject_Z_plus, inject_Z_opp, <- Hq, <- Hd.
    cbn [valor_SF]. ring.
  - unfold qualifica. cbn [menor_igual absoluto subtrai Binary64].
    rewrite FloatAxioms.leb_spec, FloatAxioms.abs_spec,
      FloatAxioms.sub_spec, Ey.
    destruct (Prim2SF x) as [?|[]| |? ? ?]; try discriminate; reflexivity.
Qed.

Lemma referencias_conferem :
  forallb (fun entrada : string * string * Q => referencia_confere (snd entrada))
    (catalogo "externa" ++ catalogo "interna") = true.
Proof. vm_compute. reflexivity. Qed.

End Arredondamento.

Section Ajustadas.

Context {A : Type} {N : Numero A}.

Lemma espacadas_ajustadas (dm : A) (resto : list A) :
  forall ultima, ajustadas dm ultima resto (espacadas dm ultima resto).
Proof.
  induction resto as [|medida resto IH]; intros ultima; cbn; [exact I|].
  split; [|apply IH].
  destruct (menor (subtrai medida ultima) dm); [left | right];
    split; reflexivity.
Qed.

End Ajustadas.

(** In binary64 the result is in ascending order and free of NaN. *)
Lemma espacadas_binary64 (resto : list float) :
  forall ultima,
    nao_nan ultima = true -> forallb nao_nan resto = true ->
    Sorted (fun a b => PrimFloat.leb a b = true)
      (ultima :: espacadas (literal distancia_minima_padrao) ultima resto) /\
    forallb nao_nan
      (ultima :: espacadas (literal distancia_minima_padrao) ultima resto)
    = true.
Proof.
  induction resto as [|medida resto IH]; intros ultima Hu Hr.
  - cbn [espacadas forallb]. rewrite Hu. split; repeat constructor.
  - cbn [forallb] in Hr. apply andb_true_iff in Hr. destruct Hr as [Hm Hr].
    cbn [espacadas]. cbv zeta.
    set (m' := if menor (subtrai medida ultima)
                    (literal distancia_minima_padrao)
               then soma ultima (literal distancia_minima_padrao)
               else medida).
    assert (Hle : PrimFloat.leb ultima m' = true).
    { unfold m'.
      destruct (menor (subtrai medida ultima)
                  (literal distancia_minima_padrao)) eqn:E.
      - apply soma_nao_desce, Hu.
      - apply mantida_nao_desce; assumption. }
    assert (Hn : nao_nan m' = true).
    { apply nao_nan_iff. rewrite FloatAxioms.leb_spec in Hle.
      apply (SFleb_nao_nan _ _ Hle). }
    destruct (IH m' Hn Hr) as [Hs Hf].
    split.
    + constructor; [exact Hs|]. constructor. exact Hle.
    + cbn [forallb]. rewrite Hu. exact Hf.
Qed.

Lemma sorted_ordenada_exato (l : list Q) : StronglySorted Qle (sorted l).
Proof.
  apply (sorted_ordenada (fun _ => True) Qle).
  - intros x y H. apply Qlt_le_weak, menor_exato_true, H.
  - intros x y _ _ H. apply menor_exato, H.
  - intros x y z. apply Qle_trans.
  - apply Forall_forall. intros; exact I.
Qed.

Lemma sorted_ordenada_binary64 (l : list float) :
  forallb nao_nan l = true ->
  StronglySorted (fun a b => PrimFloat.leb a b = true) (sorted l).
Proof.
  intros Hb.
  apply (sorted_ordenada (fun x => nao_nan x = true)
           (fun x y => PrimFloat.leb x y = true)).
  - intros x y. apply ltb_leb.
  - intros x y. apply ltb_false_leb.
  - intros x y z. apply leb_trans.
  - apply Forall_forall. rewrite forallb_forall in Hb. exact Hb.
Qed.

(** C2, as the code has it.  On a non-empty list, of rationals or of
    binary64 numbers without NaN, [evitar_cruzamento] returns a list of the
    same length, in ascending order, that starts with the smallest input
    unchanged.  The input sorted is [m0 :: resto]; each later value of the
    result is the value of [resto] at its position when the difference the
    code computes to the value before it in the result is not below 0.2,
    and that value before it plus 0.2 otherwise ([ajustadas]).  In exact
    arithmetic neighbours of the result are at least 0.2 apart. *)
Theorem evitar_cruzamento_pos_condicao :
  (forall medidas : list Q,
      medidas <> [] ->
      exists m0 resto saida,
        sorted medidas = m0 :: resto /\
        Permutation medidas (m0 :: resto) /\
        StronglySorted Qle (m0 :: resto) /\
        evitar_cruzamento medidas (literal distancia_minima_padrao)
        = Retorna (m0 :: saida) /\
        List.length (m0 :: saida) = List.length medidas /\
        In m0 medidas /\
        (forall x, In x medidas -> (m0 <= x)%Q) /\
        ajustadas (literal distancia_minima_padrao) m0 resto saida /\
        StronglySorted Qle (m0 :: saida) /\
        Sorted (fun a b => (0.2 <= b - a)%Q) (m0 :: saida)) /\
  (forall medidas : list float,
      medidas <> [] ->
      forallb nao_nan medidas = true ->
      exists m0 resto saida,
        sorted medidas = m0 :: resto /\
        Permutation medidas (m0 :: resto) /\
        StronglySorted (fun a b => PrimFloat.leb a b = true) (m0 :: resto) /\
        evitar_cruzamento medidas (literal distancia_minima_padrao)
        = Retorna (m0 :: saida) /\
        List.length (m0 :: saida) = List.length medidas /\
        In m0 medidas /\
        (forall x, In x medidas -> PrimFloat.leb m0 x = true) /\
        ajustadas (literal distancia_minima_padrao) m0 resto saida /\
        StronglySorted (fun a b => PrimFloat.leb a b = true) (m0 :: saida) /\
        forallb nao_nan (m0 :: saida) = true).
Proof.
  assert (geral :
    forall (A : Type) (N : Numero A) (medidas : list A) (dm : A),
      medidas <> [] ->
      exists m0 resto,
        sorted medidas = m0 :: resto /\
        Permutation medidas (m0 :: resto) /\
        evitar_cruzamento medidas dm
        = Retorna (m0 :: espacadas dm m0 resto) /\
        List.length (m0 :: espacadas dm m0 resto) = List.length medidas /\
        ajustadas dm m0 resto (espacadas dm m0 resto)).
  { intros A N medidas dm Hne. rewrite evitar_cruzamento_eq.
    pose proof (sorted_perm medidas) as Hp.
    destruct (sorted medidas) as [|m0 resto] eqn:E.
    - apply Permutation_sym, Permutation_nil in Hp. contradiction.
    - exists m0, resto. repeat split; try assumption.
      + simpl. rewrite length_espacadas, <- (length_sorted medidas), E.
        reflexivity.
      + apply espacadas_ajustadas. }
  split.
  - intros medidas Hne.
    destruct (geral Q Exato medidas (literal distancia_minima_padrao) Hne)
      as (m0 & resto & Hs & Hp & He & Hl & Ha).
    exists m0, resto, (espacadas (literal distancia_minima_padrao) m0 resto).
    destruct (sorted_minimo_exato medidas m0 resto Hs) as [Hin Hmin].
    assert (Hgap : Sorted (fun a b => (0.2 <= b - a)%Q)
                     (m0 :: espacadas (literal distancia_minima_padrao)
                              m0 resto)).
    { eapply Sorted_impl; [|apply espacadas_passos].
      intros a b. apply passo_exato. }
    repeat split; try assumption.
    + rewrite <- Hs. apply sorted_ordenada_exato.
    + apply Sorted_StronglySorted; [intros x y z; apply Qle_trans|].
      eapply Sorted_impl; [|exact Hgap]. simpl. intros a b H. lra.
  - intros medidas Hne Hnan.
    destruct (geral float Binary64 medidas (literal distancia_minima_padrao)
                Hne) as (m0 & resto & Hs & Hp & He & Hl & Ha).
    exists m0, resto, (espacadas (literal distancia_minima_padrao) m0 resto).
    destruct (sorted_minimo_binary64 medidas m0 resto Hnan Hs) as [Hin Hmin].
    assert (Hnan' : forallb nao_nan (m0 :: resto) = true).
    { apply forallb_forall. intros x Hx. rewrite forallb_forall in Hnan.
      apply Hnan, (Permutation_in _ (Permutation_sym Hp)), Hx. }
    cbn [forallb] in Hnan'. apply andb_true_iff in Hnan'.
    destruct Hnan' as [Hn0 Hnr].
    destruct (espacadas_binary64 resto m0 Hn0 Hnr) as [Hord Hsem].
    repeat split; try assumption.
    + rewrite <- Hs. apply sorted_ordenada_binary64, Hnan.
    + apply Sorted_StronglySorted; [intros x y z; apply leb_trans|].
      exact Hord.
Qed.

Lemma evitar_cruzamento_pos_condicao_witness :
  (exists m0 resto saida,
      sorted (A:=Q) [3; 1; 1]%Q = m0 :: resto /\
      evitar_cruzamento (A:=Q) [3; 1; 1]%Q (literal distancia_minima_padrao)
      = Retorna (m0 :: saida) /\
      ajustadas (literal distancia_minima_padrao) m0 resto saida /\
      Sorted (fun a b => (0.2 <= b - a)%Q) (m0 :: saida)) /\
  (exists m0 resto saida,
      sorted (A:=float) [3; 1; 1]%float = m0 :: resto /\
      evitar_cruzamento (A:=float) [3; 1; 1]%float
        (literal distancia_minima_padrao)
      = Retorna (m0 :: saida) /\
      ajustadas (literal distancia_minima_padrao) m0 resto saida /\
      StronglySorted (fun a b => PrimFloat.leb a b = true) (m0 :: saida)).
Proof.
  destruct evitar_cruzamento_pos_condicao as (Hq & Hf).
  split.
  - destruct (Hq [3; 1; 1]%Q)
      as (m0 & resto & saida & Hs & _ & _ & He & _ & _ & _ & Ha & _ & Hg);
      [discriminate|].
    exists m0, resto, saida. repeat split; assumption.
  - destruct (Hf [3; 1; 1]%float)
      as (m0 & resto & saida & Hs & _ & _ & He & _ & _ & _ & Ha & Ho & _);
      [discriminate | reflexivity |].
    exists m0, resto, saida. repeat split; assumption.
Defined.

(** C2, as the specification states it, fails.  On the empty list the
    function raises instead of returning a list, and in binary64 the values
    1e17, 1e17 come back unchanged, at distance 0 from one another: adding
    0.2 to 1e17 rounds back to 1e17. *)
Lemma evitar_cruzamento_sem_garantia :
  evitar_cruzamento (A:=float) [] (literal distancia_minima_padrao)
  = Levanta IndexError
  /\ evitar_cruzamento (A:=Q) [] (literal distancia_minima_padrao)
     = Levanta IndexError
  /\ evitar_cruzamento (A:=float) [1e17; 1e17]%float
       (literal distancia_minima_padrao)
     = Retorna [1e17; 1e17]%float
  /\ PrimFloat.sub 1e17 1e17 = 0%float.
Proof. repeat split; vm_compute; reflexivity. Qed.

(* ================================================================== *)
(** ** The tolerance test *)

Lemma qualifica_exato (x d : Q) :
  qualifica (A:=Q) x d = true <-> (Qabs (x - d) <= 0.3)%Q.
Proof. unfold qualifica. simpl. apply Qle_bool_iff. Qed.

Lemma referencia_do_catalogo (interna : bool) (entrada : string * string * Q) :
  In entrada (catalogo (tipo_de interna)) ->
  referencia_confere (snd entrada) = true.
Proof.
  intros Hin. pose proof referencias_conferem as H.
  rewrite forallb_forall in H. apply H, in_or_app.
  destruct interna; [right | left]; exact Hin.
Qed.

Lemma referencias_proximas :
  forallb
    (fun entrada : string * string * Q =>
       match valor (literal (snd entrada)) with
       | Some d =>
           Qle_bool (Qabs (d - snd entrada)) (1 # 281474976710656)
       | None => false
       end)
    (catalogo "externa" ++ catalogo "interna") = true.
Proof. vm_compute. reflexivity. Qed.



(* ================================================================== *)
(** ** The measurement *)

Lemma int64_pequeno (z : Z) :
  (- 2 ^ 63 <= z < 2 ^ 63)%Z -> int64 z = z.
Proof.
  intros H. unfold int64. rewrite Z.mod_small; lia.
Qed.

Lemma fold_max_cota (l : list Z) (a : Z) :
  (a <= fold_left Z.max l a)%Z /\
  (forall x, In x l -> x <= fold_left Z.max l a)%Z /\
  (fold_left Z.max l a = a \/ In (fold_left Z.max l a) l).
Proof.
  revert a. induction l as [|y l IH]; intros a; simpl.
  - split; [lia|]. split; [intros ? []|left; reflexivity].
  - destruct (IH (Z.max a y)) as (H1 & H2 & H3).
    split; [lia|]. split.
    + intros x [<-|Hx]; [lia | apply H2, Hx].
    + destruct H3 as [H3|H3]; [|right; right; exact H3].
      destruct (Z.max_spec a y) as [[_ E]|[_ E]].
      * right. left. rewrite H3. symmetry. exact E.
      * left. rewrite H3. exact E.
Qed.

(** [maior_raio] is the largest radius among the circles. *)
Lemma maior_raio_maximo (c : circulo) (cs : list circulo) :
  (forall x, In x (c :: cs) -> raio x <= maior_raio c cs)%Z /\
  exists x, In x (c :: cs) /\ raio x = maior_raio c cs.
Proof.
  unfold maior_raio.
  destruct (fold_max_cota (map raio cs) (raio c)) as (H1 & H2 & H3).
  split.
  - intros x [<-|Hx]; [exact H1|]. apply H2, in_map, Hx.
  - destruct H3 as [H3|H3].
    + exists c. split; [left; reflexivity | symmetry; exact H3].
    + apply in_map_iff in H3. destruct H3 as (x & Hx & Hin).
      exists x. split; [right; exact Hin | exact Hx].
Qed.

Lemma plausivel_spec (r : retangulo) :
  plausivel r = true <-> (80 < w r < 1200 /\ 40 < h r < 800)%Z.
Proof.
  unfold plausivel. rewrite !andb_true_iff, !Z.ltb_lt. tauto.
Qed.

(** The reference width is 0 when no rectangle passes the filter, and the
    width of a rectangle that passed it otherwise. *)
Lemma largura_cartao_px_laco (contours : list retangulo) :
  forall a : Z,
    let larg :=
      fold_left
        (fun largura cnt =>
           if plausivel cnt then Z.max largura (w cnt) else largura)
        contours a in
    (larg = a \/
     exists r, In r contours /\ plausivel r = true /\ w r = larg) /\
    (a <= larg)%Z /\
    (forall r, In r contours -> plausivel r = true -> w r <= larg)%Z.
Proof.
  induction contours as [|cnt contours IH]; intros a; simpl.
  - split; [left; reflexivity|]. split; [lia | intros ? []].
  - destruct (plausivel cnt) eqn:Ep.
    + destruct (IH (Z.max a (w cnt))) as (H1 & H2 & H3).
      split; [|split].
      * destruct H1 as [H1|(r & Hin & Hp & Hw)].
        -- destruct (Z.max_spec a (w cnt)) as [[_ E]|[_ E]].
           ++ right. exists cnt. repeat split; auto.
              rewrite H1. symmetry. exact E.
           ++ left. rewrite H1. exact E.
        -- right. exists r. repeat split; auto.
      * lia.
      * intros r [<-|Hin] Hp; [lia | apply H3; assumption].
    + destruct (IH a) as (H1 & H2 & H3).
      split; [|split].
      * destruct H1 as [H1|(r & Hin & Hp & Hw)]; [left; exact H1|].
        right. exists r. repeat split; auto.
      * exact H2.
      * intros r [<-|Hin] Hp; [congruence | apply H3; assumption].
Qed.

Lemma largura_cartao_px_faixa (contours : list retangulo) :
  (largura_cartao_px contours = 0 \/
   80 < largura_cartao_px contours < 1200)%Z.
Proof.
  destruct (largura_cartao_px_laco contours 0%Z) as ([H|(r & _ & Hp & Hw)] & _).
  - left. exact H.
  - right. apply plausivel_spec in Hp. unfold largura_cartao_px.
    rewrite <- Hw. tauto.
Qed.

Lemma largura_cartao_px_zero (contours : list retangulo) :
  (forall r, In r contours -> plausivel r = false) ->
  largura_cartao_px contours = 0%Z.
Proof.
  intros Hnone.
  destruct (largura_cartao_px_laco contours 0%Z) as ([H|(r & Hin & Hp & _)] & _).
  - exact H.
  - rewrite (Hnone r Hin) in Hp. discriminate.
Qed.

Section Medida.

Context {A : Type} {N : Numero A}.

Lemma escala_eq (largura : Z) :
  largura <> 0%Z ->
  escala largura = Retorna (divide (literal 86.0%Q) (de_inteiro largura)).
Proof.
  intros H. unfold escala, divisao.
  destruct (Z.eqb_spec largura 0); [contradiction | reflexivity].
Qed.

Lemma medir_diametro_sem_circulo (contours : list retangulo) :
  medir_diametro None contours = Retorna (de_inteiro (-1)).
Proof. reflexivity. Qed.

Lemma medir_diametro_sem_cartao
  (circles : option (circulo * list circulo)) (contours : list retangulo) :
  largura_cartao_px contours = 0%Z ->
  medir_diametro circles contours = Retorna (de_inteiro (-1)).
Proof.
  intros H. unfold medir_diametro. rewrite H. simpl.
  rewrite orb_true_r. reflexivity.
Qed.

Lemma medir_diametro_eq (c : circulo) (cs : list circulo)
  (contours : list retangulo) :
  largura_cartao_px contours <> 0%Z ->
  medir_diametro (Some (c, cs)) contours
  = Retorna
      (multiplica (de_inteiro (int64 (maior_raio c cs * 2)))
         (divide (literal 86.0%Q) (de_inteiro (largura_cartao_px contours)))).
Proof.
  intros H. unfold medir_diametro. cbn [orb diametro_px].
  destruct (Z.eqb_spec (largura_cartao_px contours) 0); [contradiction|].
  rewrite (escala_eq _ H). reflexivity.
Qed.

Lemma medir_diametro_retorna
  (circles : option (circulo * list circulo)) (contours : list retangulo) :
  exists v, medir_diametro circles contours = Retorna v.
Proof.
  destruct circles as [[c cs]|];
    [|eexists; apply medir_diametro_sem_circulo].
  destruct (Z.eq_dec (largura_cartao_px contours) 0) as [E|E].
  - eexists. apply medir_diametro_sem_cartao, E.
  - eexists. apply medir_diametro_eq, E.
Qed.

Lemma fator_decisao_retorna (d : A) (interna : bool) :
  exists r, fator_decisao d interna = Retorna r.
Proof.
  rewrite fator_decisao_eq.
  destruct (qualificados d (tipo_de interna)) as [|[[norma bitola] ref] ?];
    eexists; reflexivity.
Qed.

(** [analisar] never takes its [except] branch on account of the
    measurement or of the resolver. *)
Lemma analisar_sem_excecao
  (circles : option (circulo * list circulo)) (contours : list retangulo)
  (interna : bool) (e : excecao) :
  analisar circles contours interna <> Erro500 e.
Proof.
  unfold analisar.
  destruct (medir_diametro_retorna circles contours) as [v ->]. cbn [liga].
  destruct (menor_igual v (de_inteiro 0)); [discriminate|].
  destruct (fator_decisao_retorna v interna) as [[[[[norma bitola] ref] conf] tipo] ->].
  cbn [liga].
  destruct norma as [norma|], bitola as [bitola|]; try discriminate.
  destruct (String.eqb norma ""); discriminate.
Qed.

End Medida.

(** *** Exhaustive checks in binary64 *)

Lemma faixa_In (n : nat) :
  forall a z : Z, (a <= z < a + Z.of_nat n)%Z -> In z (faixa n a).
Proof.
  induction n as [|n IH]; intros a z H; [lia|].
  simpl. destruct (Z.eq_dec a z) as [E|E]; [left; exact E|].
  right. apply IH. lia.
Qed.

Lemma metade_todas : forallb metade_confere (faixa 1199 1) = true.
Proof. vm_compute. reflexivity. Qed.

(** Radii up to 300, the [maxRadius] of the circle detection, and widths
    below 1200, the ones the plausibility filter lets through. *)
Lemma dobro_todos : dobro_confere (faixa 301 0) (faixa 1199 1) = true.
Proof. vm_compute. reflexivity. Qed.

Lemma escala_metade_binary64 (W : Z) :
  (0 < W < 1200)%Z ->
  exists f g : float,
    escala W = Retorna f /\ escala (2 * W) = Retorna g /\
    g = PrimFloat.div f 2.
Proof.
  intros H. pose proof metade_todas as Hall.
  rewrite forallb_forall in Hall.
  specialize (Hall W (faixa_In 1199 1 W ltac:(lia))).
  unfold metade_confere in Hall.
  destruct (escala (A:=float) W) as [f|]; [|discriminate].
  destruct (escala (A:=float) (2 * W)) as [g|]; [|discriminate].
  exists f, g. repeat split. apply FloatAxioms.Leibniz.eqb_spec, Hall.
Qed.

Lemma dobro_confere_correto (raios larguras : list Z) :
  dobro_confere raios larguras = true ->
  forall W r : Z, In W larguras -> In r raios ->
    PrimFloat.mul (float_de_Z (int64 (2 * r * 2)))
      (PrimFloat.div (literal 86.0%Q) (float_de_Z W))
    = PrimFloat.mul 2
        (PrimFloat.mul (float_de_Z (int64 (r * 2)))
           (PrimFloat.div (literal 86.0%Q) (float_de_Z W))).
Proof.
  unfold dobro_confere. cbv zeta. intros Hall W r HW Hr.
  rewrite forallb_forall in Hall. specialize (Hall W HW).
  rewrite forallb_forall in Hall.
  specialize (Hall _ (in_map _ _ r Hr)).
  apply FloatAxioms.Leibniz.eqb_spec in Hall. exact Hall.
Qed.

Lemma diametro_dobro_binary64 (W r : Z) :
  (0 < W < 1200)%Z -> (0 <= r <= 300)%Z ->
  PrimFloat.mul (float_de_Z (int64 (2 * r * 2)))
    (PrimFloat.div (literal 86.0%Q) (float_de_Z W))
  = PrimFloat.mul 2
      (PrimFloat.mul (float_de_Z (int64 (r * 2)))
         (PrimFloat.div (literal 86.0%Q) (float_de_Z W))).
Proof.
  intros HW Hr.
  apply (dobro_confere_correto _ _ dobro_todos).
  - apply faixa_In. lia.
  - apply faixa_In. lia.
Qed.

(** C6.  For a positive reference width W the scale is 86.0 / W.  Doubling
    W halves it: in exact arithmetic for every W, where scale times W is
    86.0, and bit for bit in binary64 for every width below 1200, the widths
    the plausibility filter lets through. *)
Theorem escala_inversamente_proporcional :
  (forall W : Z, (0 < W)%Z ->
     escala (A:=Q) W = Retorna (86.0 / inject_Z W)%Q) /\
  (forall W : Z, (0 < W)%Z ->
     exists f g : Q,
       escala W = Retorna f /\ escala (2 * W) = Retorna g /\
       (g == f / 2)%Q /\ (f * inject_Z W == 86.0)%Q) /\
  (forall W : Z, (0 < W < 1200)%Z ->
     exists f g : float,
       escala W = Retorna f /\ escala (2 * W) = Retorna g /\
       f = PrimFloat.div (literal 86.0%Q) (float_de_Z W) /\
       g = PrimFloat.div f 2).
Proof.
  split; [|split].
  - intros W H. exact (escala_eq (A:=Q) W ltac:(lia)).
  - intros W H.
    exists (86.0 / inject_Z W)%Q, (86.0 / inject_Z (2 * W))%Q.
    assert (HW : ~ (inject_Z W == 0)%Q).
    { intros E. unfold Qeq in E. simpl in E. lia. }
    split; [exact (escala_eq (A:=Q) W ltac:(lia))|].
    split; [exact (escala_eq (A:=Q) (2 * W) ltac:(lia))|].
    split.
    + rewrite inject_Z_mult. field. exact HW.
    + field. exact HW.
  - intros W H.
    destruct (escala_metade_binary64 W H) as (f & g & Hf & Hg & Hfg).
    exists f, g. repeat split; try assumption.
    rewrite (escala_eq (A:=float) W ltac:(lia)) in Hf.
    injection Hf as <-. reflexivity.
Qed.

Lemma escala_inversamente_proporcional_witness :
  escala (A:=Q) 860 = Retorna (86.0 / inject_Z 860)%Q /\
  exists f g : float,
    escala 860 = Retorna f /\ escala (2 * 860) = Retorna g /\
    f = PrimFloat.div (literal 86.0%Q) (float_de_Z 860) /\
    g = PrimFloat.div f 2.
Proof.
  destruct escala_inversamente_proporcional as (H1 & _ & H3).
  split.
  - apply (H1 860%Z). reflexivity.
  - apply (H3 860%Z). split; reflexivity.
Defined.

(** C7.  With at least one circle and an accepted reference rectangle,
    [medir_diametro] returns 2 x (largest radius) x scale.  With the same
    reference, a detection whose largest radius is twice as large gives
    twice the diameter: exactly in exact arithmetic, and bit for bit in
    binary64 for radii up to 300, the largest the circle detection reports. *)
Theorem diametro_linear_no_raio :
  (forall (A : Type) (N : Numero A) (c : circulo) (cs : list circulo)
          (contours : list retangulo),
      largura_cartao_px contours <> 0%Z ->
      (- 2 ^ 62 <= maior_raio c cs < 2 ^ 62)%Z ->
      exists f : A,
        escala (largura_cartao_px contours) = Retorna f /\
        medir_diametro (Some (c, cs)) contours
        = Retorna (multiplica (de_inteiro (2 * maior_raio c cs)) f)) /\
  (forall (c : circulo) (cs : list circulo),
      (forall x, In x (c :: cs) -> raio x <= maior_raio c cs)%Z /\
      exists x, In x (c :: cs) /\ raio x = maior_raio c cs) /\
  (forall (c c' : circulo) (cs cs' : list circulo)
          (contours : list retangulo),
      largura_cartao_px contours <> 0%Z ->
      (0 <= maior_raio c cs < 2 ^ 61)%Z ->
      maior_raio c' cs' = (2 * maior_raio c cs)%Z ->
      exists d d' : Q,
        medir_diametro (Some (c, cs)) contours = Retorna d /\
        medir_diametro (Some (c', cs')) contours = Retorna d' /\
        (d' == 2 * d)%Q) /\
  (forall (c c' : circulo) (cs cs' : list circulo)
          (contours : list retangulo),
      largura_cartao_px contours <> 0%Z ->
      (0 <= maior_raio c cs <= 300)%Z ->
      maior_raio c' cs' = (2 * maior_raio c cs)%Z ->
      exists d d' : float,
        medir_diametro (Some (c, cs)) contours = Retorna d /\
        medir_diametro (Some (c', cs')) contours = Retorna d' /\
        d' = PrimFloat.mul 2 d).
Proof.
  split; [|split; [|split]].
  - intros A N c cs contours HW Hr.
    exists (divide (literal 86.0%Q) (de_inteiro (largura_cartao_px contours))).
    split; [apply escala_eq, HW|].
    rewrite (medir_diametro_eq c cs contours HW).
    rewrite int64_pequeno by lia. rewrite Z.mul_comm. reflexivity.
  - apply maior_raio_maximo.
  - intros c c' cs cs' contours HW Hr Hdobro.
    eexists. eexists.
    split; [apply (medir_diametro_eq (A:=Q)), HW|].
    split; [apply (medir_diametro_eq (A:=Q)), HW|].
    rewrite Hdobro. rewrite !int64_pequeno by lia.
    replace (2 * maior_raio c cs * 2)%Z with (2 * (maior_raio c cs * 2))%Z
      by lia.
    cbn [multiplica divide de_inteiro literal Exato].
    rewrite inject_Z_mult. change (inject_Z 2) with 2%Q. ring.
  - intros c c' cs cs' contours HW Hr Hdobro.
    eexists. eexists.
    split; [apply (medir_diametro_eq (A:=float)), HW|].
    split; [apply (medir_diametro_eq (A:=float)), HW|].
    rewrite Hdobro. apply diametro_dobro_binary64; [|exact Hr].
    destruct (largura_cartao_px_faixa contours); lia.
Qed.

Lemma diametro_linear_no_raio_witness :
  let cartao := {| rx := 10; ry := 10; w := 860; h := 540 |} in
  let c := {| centro_x := 400; centro_y := 300; raio := 100 |} in
  let c' := {| centro_x := 400; centro_y := 300; raio := 200 |} in
  (exists f : float,
      escala (largura_cartao_px [cartao]) = Retorna f /\
      medir_diametro (Some (c, [])) [cartao]
      = Retorna (PrimFloat.mul (float_de_Z (2 * maior_raio c [])) f)) /\
  (exists d d' : Q,
      medir_diametro (Some (c, [])) [cartao] = Retorna d /\
      medir_diametro (Some (c', [])) [cartao] = Retorna d' /\
      (d' == 2 * d)%Q) /\
  (exists d d' : float,
      medir_diametro (Some (c, [])) [cartao] = Retorna d /\
      medir_diametro (Some (c', [])) [cartao] = Retorna d' /\
      d' = PrimFloat.mul 2 d).
Proof.
  intros cartao c c'.
  destruct diametro_linear_no_raio as (H1 & _ & H3 & H4).
  split; [|split].
  - apply (H1 float Binary64 c [] [cartao]).
    + vm_compute. discriminate.
    + vm_compute. split; [discriminate | reflexivity].
  - apply (H3 c c' [] [] [cartao]).
    + vm_compute. discriminate.
    + vm_compute. split; [discriminate | reflexivity].
    + reflexivity.
  - apply (H4 c c' [] [] [cartao]).
    + vm_compute. discriminate.
    + vm_compute. split; discriminate.
    + reflexivity.
Defined.

(** C8.  Without a circle, or without a rectangle that passes the
    plausibility filter (width in (80, 1200) and height in (40, 800)),
    [medir_diametro] returns -1, with which [analisar] answers that the
    thread could not be identified; without a circle this is so whatever
    rectangles were found. *)
Theorem sem_circulo_ou_sem_cartao :
  (forall (A : Type) (N : Numero A) (contours : list retangulo),
      medir_diametro (A:=A) None contours = Retorna (de_inteiro (-1))) /\
  (forall (A : Type) (N : Numero A)
          (circles : option (circulo * list circulo))
          (contours : list retangulo),
      (forall r, In r contours -> plausivel r = false) ->
      medir_diametro (A:=A) circles contours = Retorna (de_inteiro (-1))) /\
  (forall r : retangulo,
      plausivel r = true <-> (80 < w r < 1200 /\ 40 < h r < 800)%Z) /\
  (forall (contours : list retangulo) (interna : bool),
      analisar (A:=float) None contours interna
      = Erro400 NaoFoiPossivelIdentificar /\
      analisar (A:=Q) None contours interna
      = Erro400 NaoFoiPossivelIdentificar) /\
  (forall (circles : option (circulo * list circulo))
          (contours : list retangulo) (interna : bool),
      (forall r, In r contours -> plausivel r = false) ->
      analisar (A:=float) circles contours interna
      = Erro400 NaoFoiPossivelIdentificar /\
      analisar (A:=Q) circles contours interna
      = Erro400 NaoFoiPossivelIdentificar).
Proof.
  assert (Hcartao :
    forall (A : Type) (N : Numero A)
           (circles : option (circulo * list circulo))
           (contours : list retangulo),
      (forall r, In r contours -> plausivel r = false) ->
      medir_diametro (A:=A) circles contours = Retorna (de_inteiro (-1))).
  { intros A N circles contours Hnone.
    apply medir_diametro_sem_cartao, largura_cartao_px_zero, Hnone. }
  split; [intros; apply medir_diametro_sem_circulo|].
  split; [exact Hcartao|].
  split; [exact plausivel_spec|].
  split.
  - intros contours interna. split; reflexivity.
  - intros circles contours interna Hnone. unfold analisar.
    rewrite (Hcartao float Binary64 circles contours Hnone).
    rewrite (Hcartao Q Exato circles contours Hnone).
    split; reflexivity.
Qed.

Lemma sem_circulo_ou_sem_cartao_witness :
  let pequeno := {| rx := 0; ry := 0; w := 60; h := 50 |} in
  let c := {| centro_x := 400; centro_y := 300; raio := 100 |} in
  medir_diametro (A:=float) (Some (c, [])) [pequeno]
  = Retorna (float_de_Z (-1)) /\
  analisar (A:=float) (Some (c, [])) [pequeno] false
  = Erro400 NaoFoiPossivelIdentificar.
Proof.
  intros pequeno c.
  destruct sem_circulo_ou_sem_cartao as (_ & H2 & _ & _ & H5).
  assert (Hnone : forall r, In r [pequeno] -> plausivel r = false).
  { intros r [<-|[]]. reflexivity. }
  split.
  - exact (H2 float Binary64 (Some (c, [])) [pequeno] Hnone).
  - exact (proj1 (H5 (Some (c, [])) [pequeno] false Hnone)).
Defined.

(** C9.  The reference width is 0 or lies in (80, 1200); [medir_diametro]
    never raises; it returns -1 when there is no circle or the width is 0,
    and divides by the width only otherwise, when the width is above 80.
    The value -1 is not 0, and [analisar] never answers with an exception
    of the measurement.  (Dividing by a zero width would raise
    [ZeroDivisionError].) *)
Theorem divisao_guardada :
  (forall contours : list retangulo,
      (largura_cartao_px contours = 0 \/
       80 < largura_cartao_px contours < 1200)%Z) /\
  (forall (A : Type) (N : Numero A)
          (circles : option (circulo * list circulo))
          (contours : list retangulo),
      (exists v : A, medir_diametro circles contours = Retorna v) /\
      (circles = None \/ largura_cartao_px contours = 0%Z ->
       medir_diametro (A:=A) circles contours = Retorna (de_inteiro (-1))) /\
      (circles <> None -> largura_cartao_px contours <> 0%Z ->
       (80 < largura_cartao_px contours)%Z /\
       escala (A:=A) (largura_cartao_px contours)
       = Retorna (divide (literal 86.0%Q)
                    (de_inteiro (largura_cartao_px contours))) /\
       medir_diametro circles contours
       = Retorna (multiplica (de_inteiro (diametro_px circles))
                    (divide (literal 86.0%Q)
                       (de_inteiro (largura_cartao_px contours))))) /\
      (forall (interna : bool) (e : excecao),
          analisar (A:=A) circles contours interna <> Erro500 e)) /\
  (forall (A : Type) (N : Numero A) (x : A),
      divisao x 0 = Levanta ZeroDivisionError) /\
  PrimFloat.eqb (de_inteiro (-1)) (de_inteiro 0) = false /\
  ~ (de_inteiro (A:=Q) (-1) == de_inteiro 0)%Q.
Proof.
  split; [exact largura_cartao_px_faixa|].
  split; [|split; [reflexivity | split; [reflexivity | discriminate]]].
  intros A N circles contours.
  split; [apply medir_diametro_retorna|]. split; [|split].
  - intros [-> | H];
      [apply medir_diametro_sem_circulo | apply medir_diametro_sem_cartao, H].
  - intros Hc HW. destruct circles as [[c cs]|]; [|contradiction].
    split; [destruct (largura_cartao_px_faixa contours); lia|].
    split; [apply escala_eq, HW | apply medir_diametro_eq, HW].
  - intros interna e. apply analisar_sem_excecao.
Qed.

Lemma divisao_guardada_witness :
  let cartao := {| rx := 10; ry := 10; w := 860; h := 540 |} in
  let c := {| centro_x := 400; centro_y := 300; raio := 100 |} in
  medir_diametro (A:=float) None [cartao] = Retorna (float_de_Z (-1)) /\
  (80 < largura_cartao_px [cartao])%Z /\
  medir_diametro (A:=float) (Some (c, [])) [cartao]
  = Retorna (PrimFloat.mul (float_de_Z 200)
               (PrimFloat.div (literal 86.0%Q) (float_de_Z 860))).
Proof.
  intros cartao c.
  destruct divisao_guardada as (_ & H & _).
  split.
  - destruct (H float Binary64 None [cartao]) as (_ & H2 & _).
    apply H2. left. reflexivity.
  - destruct (H float Binary64 (Some (c, [])) [cartao]) as (_ & _ & H3 & _).
    assert (Hc : Some (c, @nil circulo) <> None) by discriminate.
    assert (HW : largura_cartao_px [cartao] <> 0%Z)
      by (vm_compute; discriminate).
    destruct (H3 Hc HW) as (Hl & _ & Hm). split; [exact Hl | exact Hm].
Defined.

(* ================================================================== *)
(** * Further properties of the code *)

(** ** [evitar_cruzamento] in exact arithmetic *)

(** A list in ascending order is left as it is by [sorted]. *)
Lemma sorted_ordenada_fixo (l : list Q) : Sorted Qle l -> sorted l = l.
Proof.
  induction 1 as [|x l Hl IH Hhd]; [reflexivity|].
  simpl. rewrite IH. destruct Hhd as [|y l' Hxy]; [reflexivity|].
  cbn [insere].
  assert (E : menor (A:=Q) y x = false) by (apply menor_exato; exact Hxy).
  rewrite E. reflexivity.
Qed.

Lemma espacadas_fixo (dm : Q) (l : list Q) :
  forall u, Sorted (fun a b => (dm <= b - a)%Q) (u :: l) ->
            espacadas dm u l = l.
Proof.
  induction l as [|m l IH]; intros u Hs; [reflexivity|].
  inversion Hs as [|? ? Hl Hhd]; subst.
  inversion Hhd as [|? ? Hum]; subst.
  cbn [espacadas].
  assert (E : menor (A:=Q) (subtrai m u) dm = false)
    by (apply menor_exato; exact Hum).
  rewrite E. cbv zeta. rewrite (IH m Hl). reflexivity.
Qed.

Lemma evitar_cruzamento_fixo (medidas : list Q) (dm : Q) :
  (0 <= dm)%Q -> medidas <> [] ->
  Sorted (fun a b => (dm <= b - a)%Q) medidas ->
  evitar_cruzamento medidas dm = Retorna medidas.
Proof.
  intros Hdm Hne Hs. rewrite evitar_cruzamento_eq.
  rewrite sorted_ordenada_fixo.
  - destruct medidas as [|m0 resto]; [contradiction|].
    rewrite (espacadas_fixo dm resto m0 Hs). reflexivity.
  - eapply Sorted_impl; [|exact Hs]. simpl. intros a b H. lra.
Qed.

(** X1.  In exact arithmetic and for a minimum distance that is not
    negative, [evitar_cruzamento] returns a non-empty list whose neighbours
    are already that far apart unchanged, and it is idempotent: applied to
    a list it returned, it returns that list again. *)
Theorem evitar_cruzamento_ponto_fixo (dm : Q) :
  (0 <= dm)%Q ->
  (forall medidas : list Q,
      medidas <> [] ->
      Sorted (fun a b => (dm <= b - a)%Q) medidas ->
      evitar_cruzamento medidas dm = Retorna medidas) /\
  (forall medidas saida : list Q,
      evitar_cruzamento medidas dm = Retorna saida ->
      evitar_cruzamento saida dm = Retorna saida).
Proof.
  intros Hdm. split.
  - intros medidas. apply evitar_cruzamento_fixo, Hdm.
  - intros medidas saida. rewrite evitar_cruzamento_eq.
    destruct (sorted medidas) as [|m0 resto]; [discriminate|].
    intros [= <-]. apply evitar_cruzamento_fixo; [exact Hdm | discriminate |].
    eapply Sorted_impl; [|apply espacadas_passos].
    intros a b. apply passo_exato.
Qed.

Lemma evitar_cruzamento_ponto_fixo_witness :
  evitar_cruzamento (A:=Q) [1; 1.5]%Q 0.2%Q = Retorna [1; 1.5]%Q /\
  (let saida :=
     match evitar_cruzamento (A:=Q) [1; 1; 1]%Q 0.2%Q with
     | Retorna s => s
     | Levanta _ => []
     end in
   evitar_cruzamento saida 0.2%Q = Retorna saida).
Proof.
  assert (Hdm : (0 <= 0.2)%Q) by (unfold Qle; simpl; lia).
  destruct (evitar_cruzamento_ponto_fixo 0.2%Q Hdm) as [H1 H2].
  split.
  - apply H1; [discriminate|].
    repeat constructor. unfold Qle. simpl. lia.
  - apply (H2 [1; 1; 1]%Q). vm_compute. reflexivity.
Defined.

(** X2.  In exact arithmetic, with a minimum distance of zero or below
    nothing is moved: on a non-empty list [evitar_cruzamento] returns the
    input sorted, a rearrangement of the input in ascending order. *)
Theorem evitar_cruzamento_distancia_nao_positiva
  (medidas : list Q) (dm : Q) :
  (dm <= 0)%Q -> medidas <> [] ->
  exists saida,
    evitar_cruzamento medidas dm = Retorna saida /\
    Permutation medidas saida /\
    StronglySorted Qle saida.
Proof.
  intros Hdm Hne. exists (sorted medidas).
  split; [|split; [apply sorted_perm | apply sorted_ordenada_exato]].
  rewrite evitar_cruzamento_eq.
  pose proof (sorted_ordenada_exato medidas) as Hs.
  destruct (sorted medidas) as [|m0 resto] eqn:E.
  - apply (f_equal (@List.length Q)) in E. rewrite length_sorted in E.
    destruct medidas; [contradiction | discriminate].
  - rewrite espacadas_fixo; [reflexivity|].
    eapply Sorted_impl; [|apply StronglySorted_Sorted, Hs].
    simpl. intros a b H. lra.
Qed.

Lemma evitar_cruzamento_distancia_nao_positiva_witness :
  exists saida,
    evitar_cruzamento (A:=Q) [3; 1; 1.1]%Q 0%Q = Retorna saida /\
    Permutation [3; 1; 1.1]%Q saida /\
    StronglySorted Qle saida.
Proof.
  apply (evitar_cruzamento_distancia_nao_positiva [3; 1; 1.1]%Q 0%Q).
  - unfold Qle. simpl. lia.
  - discriminate.
Defined.

Lemma espacadas_deslocamento (dm : Q) :
  (0 <= dm)%Q ->
  forall (l : list Q) (p u : Q) (k : nat),
    Sorted Qle (p :: l) ->
    (u <= p + inject_Z (Z.of_nat k) * dm)%Q ->
    forall j, (j < List.length l)%nat ->
      (nth j l 0 <= nth j (espacadas dm u l) 0 /\
       nth j (espacadas dm u l) 0
       <= nth j l 0 + inject_Z (Z.of_nat (S k + j)) * dm)%Q.
Proof.
  intros Hdm. induction l as [|m l IH]; intros p u k Hs Hu j Hj;
    [simpl in Hj; lia|].
  inversion Hs as [|? ? Hl Hhd]; subst.
  inversion Hhd as [|? ? Hpm]; subst.
  cbn [espacadas]. cbv zeta.
  set (m' := if menor (subtrai m u) dm then soma u dm else m).
  assert (Hm' : (m <= m' /\ m' <= m + inject_Z (Z.of_nat (S k)) * dm)%Q).
  { rewrite Nat2Z.inj_succ. unfold Z.succ. rewrite inject_Z_plus.
    change (inject_Z 1) with 1%Q.
    assert (Hk : (0 <= inject_Z (Z.of_nat k) * dm)%Q).
    { apply Qmult_le_0_compat; [|exact Hdm].
      change 0%Q with (inject_Z 0). rewrite <- Zle_Qle. lia. }
    unfold m'. destruct (menor (subtrai m u) dm) eqn:E.
    - apply menor_exato_true in E. simpl in E |- *. split; lra.
    - split; lra. }
  destruct j as [|j].
  - simpl. rewrite Nat.add_0_r. exact Hm'.
  - simpl in Hj. cbn [nth].
    destruct (IH m m' (S k) Hl (proj2 Hm') j ltac:(lia)) as [H1 H2].
    split; [exact H1|].
    replace (S k + S j)%nat with (S (S k) + j)%nat by lia. exact H2.
Qed.

(** X3.  In exact arithmetic and for a minimum distance that is not
    negative, values are only pushed up, and by a bounded amount: the value
    at position [i] of the result is not below the value at position [i] of
    the sorted input and exceeds it by at most [i] times the minimum
    distance. *)
Theorem evitar_cruzamento_deslocamento (medidas saida : list Q) (dm : Q) :
  (0 <= dm)%Q ->
  evitar_cruzamento medidas dm = Retorna saida ->
  forall i, (i < List.length medidas)%nat ->
    (nth i (sorted medidas) 0 <= nth i saida 0 /\
     nth i saida 0
     <= nth i (sorted medidas) 0 + inject_Z (Z.of_nat i) * dm)%Q.
Proof.
  intros Hdm. rewrite evitar_cruzamento_eq.
  pose proof (sorted_ordenada_exato medidas) as Hs.
  pose proof (length_sorted medidas) as Hlen.
  destruct (sorted medidas) as [|m0 resto]; [discriminate|].
  intros [= <-] i Hi. destruct i as [|j].
  - cbn [nth]. change (inject_Z (Z.of_nat 0)) with 0%Q. split; lra.
  - cbn [nth]. simpl in Hlen.
    apply (espacadas_deslocamento dm Hdm resto m0 m0 0).
    + apply StronglySorted_Sorted, Hs.
    + change (inject_Z (Z.of_nat 0)) with 0%Q. lra.
    + lia.
Qed.

Lemma evitar_cruzamento_deslocamento_witness :
  let medidas := [1; 1; 1]%Q in
  let saida :=
    match evitar_cruzamento (A:=Q) medidas 0.2%Q with
    | Retorna s => s
    | Levanta _ => []
    end in
  (nth 2 (sorted medidas) 0 <= nth 2 saida 0 /\
   nth 2 saida 0 <= nth 2 (sorted medidas) 0 + inject_Z (Z.of_nat 2) * 0.2)%Q.
Proof.
  intros medidas saida.
  apply (evitar_cruzamento_deslocamento medidas saida 0.2%Q).
  - unfold Qle. simpl. lia.
  - vm_compute. reflexivity.
  - simpl. lia.
Defined.

(* ================================================================== *)
(** ** [fator_decisao] and the table *)

(** Every entry of the catalogue is what the table holds under its
    standard, bore kind and size. *)
Lemma consulta_catalogo (interna : bool) (entrada : string * string * Q) :
  In entrada (catalogo (tipo_de interna)) ->
  consulta (fst (fst entrada)) (tipo_de interna) (snd (fst entrada))
  = Retorna (snd entrada).
Proof.
  destruct interna; unfold tipo_de;
    [rewrite catalogo_interna | rewrite catalogo_externa];
    intros H; simpl in H;
    repeat (destruct H as [<-|H]; [reflexivity|]); contradiction.
Qed.

Section Achado.

Context {A : Type} {N : Numero A}.

Lemma qualificados_cabeca (d : A) (tipo : string) (c : candidato)
  (resto : list candidato) :
  qualificados d tipo = c :: resto ->
  exists entrada,
    In entrada (catalogo tipo) /\
    entrada_qualifica d entrada = true /\
    c = como_candidato entrada.
Proof.
  intros E.
  assert (Hin : In c (qualificados d tipo)) by (rewrite E; left; reflexivity).
  unfold qualificados in Hin. apply in_map_iff in Hin.
  destruct Hin as (entrada & Hc & Hf). apply filter_In in Hf.
  exists entrada. repeat split; [tauto | tauto | symmetry; exact Hc].
Qed.

(** What a match is made of. *)
Lemma fator_decisao_achado (d : A) (interna : bool)
  (norma bitola : string) (ref conf : A) (tipo : string) :
  fator_decisao d interna
  = Retorna (Some norma, Some bitola, Some ref, conf, tipo) ->
  tipo = tipo_de interna /\ conf = literal 95.0%Q /\
  exists q,
    In (norma, bitola, q) (catalogo (tipo_de interna)) /\
    ref = literal q /\ qualifica d ref = true.
Proof.
  rewrite fator_decisao_eq.
  destruct (qualificados d (tipo_de interna)) as [|[[n b] r] resto] eqn:E;
    [discriminate|].
  intros [= -> -> -> <- <-].
  destruct (qualificados_cabeca _ _ _ _ E) as ([[n b] q] & Hin & Hq & Hc).
  unfold como_candidato in Hc. simpl in Hc. injection Hc as -> -> ->.
  repeat split. exists q. repeat split; assumption.
Qed.

Lemma norma_nao_vazia (tipo : string) (entrada : string * string * Q) :
  In entrada (catalogo tipo) -> String.eqb (fst (fst entrada)) "" = false.
Proof.
  unfold catalogo. rewrite in_flat_map.
  intros ([norma dados] & Ht & He). unfold entradas_da_norma in He.
  destruct (obtem dados tipo) as [bitolas|]; [|destruct He].
  apply in_map_iff in He. destruct He as (x & <- & _). simpl.
  simpl in Ht. repeat (destruct Ht as [[= <- <-]|Ht]; [reflexivity|]).
  destruct Ht.
Qed.

(** What [analisar] computes. *)
Lemma analisar_eq (circles : option (circulo * list circulo))
  (contours : list retangulo) (interna : bool) :
  analisar circles contours interna
  = match medir_diametro circles contours with
    | Retorna d =>
        if menor_igual d (de_inteiro 0)
        then Erro400 NaoFoiPossivelIdentificar
        else
          match find (entrada_qualifica d) (catalogo (tipo_de interna)) with
          | Some (norma, bitola, _) => Ok norma bitola d (literal 95.0%Q)
          | None => Erro400 NenhumaCorrespondencia
          end
    | Levanta e => Erro500 e
    end.
Proof.
  unfold analisar.
  destruct (medir_diametro circles contours) as [d|e]; [|reflexivity].
  cbn [liga]. destruct (menor_igual d (de_inteiro 0)); [reflexivity|].
  rewrite fator_decisao_sem_ajuste. unfold resolvedor_sem_ajuste.
  destruct (find (entrada_qualifica d) (catalogo (tipo_de interna)))
    as [[[norma bitola] ref]|] eqn:E; [|reflexivity].
  cbn [liga]. apply find_some in E. destruct E as [Hin _].
  rewrite (norma_nao_vazia _ _ Hin : String.eqb norma "" = false).
  reflexivity.
Qed.

End Achado.

(** X4.  A match [fator_decisao] returns is an entry of the table: under
    the returned standard, the bore kind asked for and the returned size
    the table holds the returned reference diameter, the measured diameter
    passes the tolerance test against it, and the confidence is 95.0. *)
Theorem fator_decisao_entrada_da_tabela (A : Type) (N : Numero A)
  (diametro_medido : A) (interna : bool) (norma bitola : string)
  (diametro_ref confianca : A) (tipo : string) :
  fator_decisao diametro_medido interna
  = Retorna (Some norma, Some bitola, Some diametro_ref, confianca, tipo) ->
  tipo = tipo_de interna /\ confianca = literal 95.0%Q /\
  exists q,
    consulta norma tipo bitola = Retorna q /\
    diametro_ref = literal q /\
    qualifica diametro_medido diametro_ref = true.
Proof.
  intros H. destruct (fator_decisao_achado _ _ _ _ _ _ _ H)
    as (-> & -> & q & Hin & -> & Hq).
  repeat split. exists q. repeat split; [|exact Hq].
  exact (consulta_catalogo interna (norma, bitola, q) Hin).
Qed.

Lemma fator_decisao_entrada_da_tabela_witness :
  exists q,
    consulta "BSP" "interna" "3/4" = Retorna q /\
    (24.5%float = literal q) /\
    qualifica (A:=float) 24.5%float 24.5%float = true.
Proof.
  destruct (fator_decisao_entrada_da_tabela float Binary64 24.5%float true
              "BSP" "3/4" 24.5%float 95.0%float "interna")
    as (_ & _ & q & H).
  - vm_compute. reflexivity.
  - exists q. exact H.
Defined.

(** X5.  For an internal thread the answer is never UNF 1: its reference
    diameter, 24.5, is also the one of BSP 3/4, which the table declares
    first.  This holds in any arithmetic. *)
Theorem fator_decisao_nunca_unf_1_interna (A : Type) (N : Numero A)
  (diametro_medido : A) (diametro_ref : option A) (confianca : A)
  (tipo : string) :
  fator_decisao diametro_medido true
  <> Retorna (Some "UNF", Some "1", diametro_ref, confianca, tipo).
Proof.
  rewrite fator_decisao_sem_ajuste. unfold resolvedor_sem_ajuste.
  unfold tipo_de. rewrite catalogo_interna. cbn [find].
  unfold entrada_qualifica. cbn [snd].
  repeat match goal with
         | |- context [if qualifica diametro_medido ?x then _ else _] =>
             destruct (qualifica diametro_medido x) eqn:?; [discriminate|]
         end.
  discriminate.
Qed.

Lemma seleciona_correto (interna : bool) (entrada : string * string * Q)
  (d : float) :
  seleciona interna entrada d = true ->
  fator_decisao d interna
  = Retorna (Some (fst (fst entrada)), Some (snd (fst entrada)),
             Some (literal (snd entrada)), literal 95.0%Q, tipo_de interna).
Proof.
  unfold seleciona. rewrite fator_decisao_eq.
  destruct (qualificados d (tipo_de interna)) as [|[[n b] r] resto];
    [discriminate|].
  rewrite !andb_true_iff. intros [[Hn Hb] Hr].
  apply String.eqb_eq in Hn, Hb.
  apply FloatAxioms.Leibniz.eqb_spec in Hr. subst. reflexivity.
Qed.

Lemma alcancaveis :
  filter (fun e => negb (alcancavel false e)) (catalogo "externa") = [] /\
  filter (fun e => negb (alcancavel true e)) (catalogo "interna")
  = [("UNF", "1", 24.5%Q)].
Proof. split; vm_compute; reflexivity. Qed.

(** X6.  In binary64 every other entry of the table is the answer for some
    measured diameter: each external entry, and each internal entry except
    UNF 1. *)
Theorem fator_decisao_toda_entrada_alcancavel
  (interna : bool) (entrada : string * string * Q) :
  In entrada (catalogo (tipo_de interna)) ->
  (interna = true -> entrada <> ("UNF", "1", 24.5%Q)) ->
  exists diametro_medido : float,
    fator_decisao diametro_medido interna
    = Retorna (Some (fst (fst entrada)), Some (snd (fst entrada)),
               Some (literal (snd entrada)), literal 95.0%Q, tipo_de interna).
Proof.
  intros Hin Hne.
  assert (Ha : alcancavel interna entrada = true).
  { destruct (alcancavel interna entrada) eqn:E; [reflexivity|].
    assert (Hf : In entrada
                   (filter (fun e => negb (alcancavel interna e))
                      (catalogo (tipo_de interna)))).
    { apply filter_In. split; [exact Hin|]. rewrite E. reflexivity. }
    destruct alcancaveis as [He Hi]. destruct interna; unfold tipo_de in Hf.
    - rewrite Hi in Hf. destruct Hf as [<-|[]].
      exfalso. apply Hne; reflexivity.
    - rewrite He in Hf. destruct Hf. }
  unfold alcancavel in Ha. cbv zeta in Ha.
  apply existsb_exists in Ha. destruct Ha as (d & _ & Hd).
  exists d. apply seleciona_correto, Hd.
Qed.

Lemma fator_decisao_toda_entrada_alcancavel_witness :
  exists diametro_medido : float,
    fator_decisao diametro_medido true
    = Retorna (Some "NPT", Some "1/8", Some (literal 8.7%Q), literal 95.0%Q,
               "interna").
Proof.
  apply (fator_decisao_toda_entrada_alcancavel true ("NPT", "1/8", 8.7%Q)).
  - esta_no_catalogo.
  - intros _ E. discriminate E.
Defined.

(** The tolerance window in exact arithmetic. *)
Lemma qualifica_exato_acima (d ref : Q) :
  (ref + 0.3 < d)%Q -> qualifica d ref = false.
Proof.
  intros H. destruct (qualifica d ref) eqn:E; [|reflexivity].
  apply qualifica_exato, Qabs_Qle_condition in E. lra.
Qed.

Lemma qualifica_exato_abaixo (d ref : Q) :
  (d < ref - 0.3)%Q -> qualifica d ref = false.
Proof.
  intros H. destruct (qualifica d ref) eqn:E; [|reflexivity].
  apply qualifica_exato, Qabs_Qle_condition in E. lra.
Qed.

Lemma qualifica_exato_dentro (d ref : Q) :
  (ref - 0.3 <= d <= ref + 0.3)%Q -> qualifica d ref = true.
Proof.
  intros H. apply qualifica_exato, Qabs_Qle_condition. split; lra.
Qed.

Ltac fora_da_janela :=
  repeat first
    [ rewrite qualifica_exato_acima by lra
    | rewrite qualifica_exato_abaixo by lra ].

(** X7.  The answer is the first entry within tolerance, not the nearest
    one.  In exact arithmetic every external diameter above 21.1 and up to
    21.2 is answered BSP 1/2 (reference 20.9) although NPT 1/2 (reference
    21.3) is within tolerance too and strictly nearer; in binary64 this is
    so for 21.15. *)
Theorem fator_decisao_nao_o_mais_proximo :
  (forall d : Q, (21.1 < d <= 21.2)%Q ->
     fator_decisao d false
     = Retorna (Some "BSP", Some "1/2", Some 20.9%Q, 95.0%Q, "externa") /\
     In ("NPT", "1/2", 21.3%Q) (catalogo "externa") /\
     qualifica d 21.3%Q = true /\
     (Qabs (d - 21.3) < Qabs (d - 20.9))%Q) /\
  (let d := literal (A:=float) 21.15%Q in
   fator_decisao d false
   = Retorna (Some "BSP", Some "1/2", Some (literal 20.9%Q), literal 95.0%Q,
              "externa") /\
   qualifica d (literal 21.3%Q) = true /\
   PrimFloat.ltb (absoluto (subtrai d (literal 21.3%Q)))
     (absoluto (subtrai d (literal 20.9%Q))) = true).
Proof.
  split.
  - intros d Hd. split; [|split; [|split]].
    + rewrite fator_decisao_sem_ajuste. unfold resolvedor_sem_ajuste.
      unfold tipo_de. rewrite catalogo_externa. cbn [find].
      unfold entrada_qualifica. cbn [snd literal Exato].
      fora_da_janela. rewrite qualifica_exato_dentro by lra. reflexivity.
    + esta_no_catalogo.
    + apply qualifica_exato_dentro. lra.
    + rewrite (Qabs_neg (d - 21.3)) by lra.
      rewrite (Qabs_pos (d - 20.9)) by lra. lra.
  - vm_compute. repeat split.
Qed.

Lemma fator_decisao_nao_o_mais_proximo_witness :
  fator_decisao (A:=Q) 21.15%Q false
  = Retorna (Some "BSP", Some "1/2", Some 20.9%Q, 95.0%Q, "externa") /\
  (Qabs (21.15 - 21.3) < Qabs (21.15 - 20.9))%Q.
Proof.
  destruct fator_decisao_nao_o_mais_proximo as [H _].
  destruct (H 21.15%Q) as (H1 & _ & _ & H4).
  - split; [reflexivity | unfold Qle; simpl; lia].
  - split; [exact H1 | exact H4].
Defined.

(** An entry whose stored reference is more than 3/10 away from the
    measured diameter does not qualify. *)
Lemma longe_nao_qualifica (interna : bool) (entrada : string * string * Q)
  (x : float) (q : Q) :
  In entrada (catalogo (tipo_de interna)) ->
  valor x = Some q ->
  (q < snd entrada - 0.31 \/ snd entrada + 0.31 < q)%Q ->
  entrada_qualifica x entrada = false.
Proof.
  intros Hin Hq Hlonge. unfold entrada_qualifica.
  pose proof referencias_proximas as Hp. rewrite forallb_forall in Hp.
  assert (Hin' : In entrada (catalogo "externa" ++ catalogo "interna"))
    by (apply in_or_app; destruct interna; [right | left]; exact Hin).
  specialize (Hp entrada Hin'). cbv beta in Hp.
  destruct (qualifica_valor x (snd entrada)
              (referencia_do_catalogo interna entrada Hin))
    as (d & Hd & Hm).
  rewrite Hd in Hp. apply Qle_bool_iff, Qabs_Qle_condition in Hp.
  rewrite Hq in Hm.
  destruct (qualifica x (literal (snd entrada))) eqn:E; [|reflexivity].
  pose proof (proj1 Hm eq_refl) as Hle.
  apply Qabs_Qle_condition in Hle.
  assert (Hpeq : ((1 # 281474976710656) <= 0.01)%Q)
    by (unfold Qle; simpl; lia).
  destruct Hlonge; lra.
Qed.

(** X8.  In binary64 nothing is matched outside the range of the table: a
    finite external diameter below 6.04 or above 33.81, a finite internal
    diameter below 5.49 or above 31.11, an infinity and NaN get the
    no-match answer. *)
Theorem fator_decisao_fora_da_faixa (diametro_medido : float) :
  (forall q : Q,
      valor diametro_medido = Some q ->
      (q < 6.04 \/ 33.81 < q)%Q ->
      fator_decisao diametro_medido false
      = Retorna (None, None, None, literal 0.0%Q, "externa")) /\
  (forall q : Q,
      valor diametro_medido = Some q ->
      (q < 5.49 \/ 31.11 < q)%Q ->
      fator_decisao diametro_medido true
      = Retorna (None, None, None, literal 0.0%Q, "interna")) /\
  (valor diametro_medido = None ->
   forall interna : bool,
     fator_decisao diametro_medido interna
     = Retorna (None, None, None, literal 0.0%Q, tipo_de interna)).
Proof.
  split; [|split].
  - intros q Hq Hfora. rewrite fator_decisao_eq.
    assert (Hnil : qualificados diametro_medido (tipo_de false) = []).
    { apply qualificados_nil. intros entrada Hin.
      apply (longe_nao_qualifica false entrada diametro_medido q Hin Hq).
      unfold tipo_de in Hin. rewrite catalogo_externa in Hin. simpl in Hin.
      repeat (destruct Hin as [<-|Hin];
              [cbn [snd]; destruct Hfora; [left | right]; lra|]).
      destruct Hin. }
    rewrite Hnil. reflexivity.
  - intros q Hq Hfora. rewrite fator_decisao_eq.
    assert (Hnil : qualificados diametro_medido (tipo_de true) = []).
    { apply qualificados_nil. intros entrada Hin.
      apply (longe_nao_qualifica true entrada diametro_medido q Hin Hq).
      unfold tipo_de in Hin. rewrite catalogo_interna in Hin. simpl in Hin.
      repeat (destruct Hin as [<-|Hin];
              [cbn [snd]; destruct Hfora; [left | right]; lra|]).
      destruct Hin. }
    rewrite Hnil. reflexivity.
  - intros Hnone interna. rewrite fator_decisao_eq.
    assert (Hnil : qualificados diametro_medido (tipo_de interna) = []).
    { apply qualificados_nil. intros entrada Hin. unfold entrada_qualifica.
      destruct (qualifica_valor diametro_medido (snd entrada)
                  (referencia_do_catalogo interna entrada Hin))
        as (d & _ & Hm).
      rewrite Hnone in Hm. exact Hm. }
    rewrite Hnil. reflexivity.
Qed.

Lemma fator_decisao_fora_da_faixa_witness :
  fator_decisao (A:=float) 40%float false
  = Retorna (None, None, None, literal 0.0%Q, "externa") /\
  fator_decisao (A:=float) infinity%float true
  = Retorna (None, None, None, literal 0.0%Q, "interna").
Proof.
  split.
  - apply (proj1 (fator_decisao_fora_da_faixa 40%float)
             (5629499534213120 # 140737488355328)%Q).
    + vm_compute. reflexivity.
    + right. reflexivity.
  - apply (proj2 (proj2 (fator_decisao_fora_da_faixa infinity))).
    reflexivity.
Defined.

(* ================================================================== *)
(** ** The reference width and the sign of the measurement *)

(** X9.  [largura_cartao_px] is the largest width among the rectangles
    that pass the plausibility filter: no such rectangle is wider, one of
    them has that width when there is any, and the order in which the
    contours come does not matter. *)
Theorem largura_cartao_px_maior_plausivel (contours : list retangulo) :
  (forall r, In r contours -> plausivel r = true ->
     (w r <= largura_cartao_px contours)%Z) /\
  ((exists r, In r contours /\ plausivel r = true) ->
   exists r, In r contours /\ plausivel r = true /\
             w r = largura_cartao_px contours) /\
  (forall contours', Permutation contours contours' ->
     largura_cartao_px contours' = largura_cartao_px contours).
Proof.
  assert (Hmax : forall l r, In r l -> plausivel r = true ->
                   (w r <= largura_cartao_px l)%Z).
  { intros l. exact (proj2 (proj2 (largura_cartao_px_laco l 0%Z))). }
  assert (Hex : forall l, (exists r, In r l /\ plausivel r = true) ->
                  exists r, In r l /\ plausivel r = true /\
                            w r = largura_cartao_px l).
  { intros l (r & Hin & Hp).
    destruct (largura_cartao_px_laco l 0%Z) as ([H|H] & _ & H3);
      [|exact H].
    specialize (H3 r Hin Hp). cbv zeta in H, H3. rewrite H in H3.
    apply plausivel_spec in Hp. lia. }
  split; [apply Hmax|]. split; [apply Hex|].
  intros contours' Hperm.
  assert (Hnone : forall l, ~ (exists r, In r l /\ plausivel r = true) ->
                    largura_cartao_px l = 0%Z).
  { intros l Hn. apply largura_cartao_px_zero. intros r Hin.
    destruct (plausivel r) eqn:E; [|reflexivity].
    exfalso. apply Hn. exists r. split; assumption. }
  destruct (existsb plausivel contours) eqn:E.
  - apply existsb_exists in E.
    assert (E' : exists r, In r contours' /\ plausivel r = true).
    { destruct E as (r & Hin & Hp). exists r. split; [|exact Hp].
      apply (Permutation_in _ Hperm), Hin. }
    destruct (Hex _ E) as (r & Hin & Hp & Hw).
    destruct (Hex _ E') as (r' & Hin' & Hp' & Hw').
    apply (Permutation_in _ Hperm) in Hin.
    apply (Permutation_in _ (Permutation_sym Hperm)) in Hin'.
    pose proof (Hmax _ _ Hin Hp). pose proof (Hmax _ _ Hin' Hp'). lia.
  - assert (Hn : ~ (exists r, In r contours /\ plausivel r = true)).
    { intros H. apply existsb_exists in H. congruence. }
    rewrite (Hnone contours Hn). apply Hnone.
    intros (r & Hin & Hp). apply Hn. exists r. split; [|exact Hp].
    apply (Permutation_in _ (Permutation_sym Hperm)), Hin.
Qed.

Lemma largura_cartao_px_maior_plausivel_witness :
  let a := {| rx := 0; ry := 0; w := 300; h := 200 |} in
  let b := {| rx := 5; ry := 5; w := 860; h := 540 |} in
  (w a <= largura_cartao_px [a; b])%Z /\
  largura_cartao_px [b; a] = largura_cartao_px [a; b].
Proof.
  intros a b.
  destruct (largura_cartao_px_maior_plausivel [a; b]) as (H1 & _ & H3).
  split.
  - apply H1; [simpl; tauto | reflexivity].
  - apply H3. apply perm_swap.
Defined.

(** Radii from 1 to 300 and widths below 1200. *)
Lemma positivo_todos : positivo_confere (faixa 300 1) (faixa 1199 1) = true.
Proof. vm_compute. reflexivity. Qed.

Lemma positivo_confere_correto (raios larguras : list Z) :
  positivo_confere raios larguras = true ->
  forall W r : Z, In W larguras -> In r raios ->
    PrimFloat.ltb (float_de_Z 0)
      (PrimFloat.mul (float_de_Z (int64 (r * 2)))
         (PrimFloat.div (literal 86.0%Q) (float_de_Z W)))
    = true.
Proof.
  unfold positivo_confere. cbv zeta. intros Hall W r HW Hr.
  rewrite forallb_forall in Hall. specialize (Hall W HW).
  rewrite forallb_forall in Hall.
  exact (Hall _ (in_map _ _ r Hr)).
Qed.

(** X10.  With a circle of positive radius and an accepted reference
    rectangle the measured diameter is above 0, so that [analisar] does not
    answer that the thread could not be identified: in exact arithmetic for
    every radius, in binary64 for radii up to 300, the largest the circle
    detection reports. *)
Theorem medicao_positiva :
  (forall (c : circulo) (cs : list circulo) (contours : list retangulo)
          (interna : bool),
      largura_cartao_px contours <> 0%Z ->
      (0 < maior_raio c cs < 2 ^ 62)%Z ->
      exists d : Q,
        medir_diametro (Some (c, cs)) contours = Retorna d /\
        (0 < d)%Q /\
        analisar (A:=Q) (Some (c, cs)) contours interna
        <> Erro400 NaoFoiPossivelIdentificar) /\
  (forall (c : circulo) (cs : list circulo) (contours : list retangulo)
          (interna : bool),
      largura_cartao_px contours <> 0%Z ->
      (0 < maior_raio c cs <= 300)%Z ->
      exists d : float,
        medir_diametro (Some (c, cs)) contours = Retorna d /\
        PrimFloat.ltb 0 d = true /\
        analisar (A:=float) (Some (c, cs)) contours interna
        <> Erro400 NaoFoiPossivelIdentificar).
Proof.
  split.
  - intros c cs contours interna HW Hr.
    pose proof (largura_cartao_px_faixa contours) as HF.
    eexists. split; [apply (medir_diametro_eq (A:=Q)), HW|].
    rewrite int64_pequeno by lia.
    assert (Hd : (0 < multiplica (de_inteiro (maior_raio c cs * 2))
                     (divide (literal 86.0%Q)
                        (de_inteiro (largura_cartao_px contours))))%Q).
    { cbn [multiplica divide de_inteiro literal Exato].
      apply Qmult_lt_0_compat.
      - change 0%Q with (inject_Z 0). rewrite <- Zlt_Qlt. lia.
      - apply Qlt_shift_div_l.
        + change 0%Q with (inject_Z 0). rewrite <- Zlt_Qlt. lia.
        + rewrite Qmult_0_l. reflexivity. }
    split; [exact Hd|].
    rewrite analisar_eq, (medir_diametro_eq (A:=Q)) by exact HW.
    rewrite int64_pequeno by lia.
    assert (E : menor_igual (A:=Q)
                  (multiplica (de_inteiro (maior_raio c cs * 2))
                     (divide (literal 86.0%Q)
                        (de_inteiro (largura_cartao_px contours))))
                  (de_inteiro 0) = false).
    { destruct (menor_igual _ _) eqn:E; [|reflexivity].
      apply Qle_bool_iff in E. change (de_inteiro (A:=Q) 0) with 0%Q in E.
      apply Qle_not_lt in E. contradiction. }
    rewrite E. destruct (find _ _) as [[[? ?] ?]|]; discriminate.
  - intros c cs contours interna HW Hr.
    pose proof (largura_cartao_px_faixa contours) as HF.
    assert (E : PrimFloat.ltb (float_de_Z 0)
                  (PrimFloat.mul (float_de_Z (int64 (maior_raio c cs * 2)))
                     (PrimFloat.div (literal 86.0%Q)
                        (float_de_Z (largura_cartao_px contours))))
                = true).
    { apply (positivo_confere_correto _ _ positivo_todos);
        apply faixa_In; lia. }
    eexists. split; [apply (medir_diametro_eq (A:=float)), HW|].
    split; [exact E|].
    rewrite analisar_eq, (medir_diametro_eq (A:=float)) by exact HW.
    cbn [multiplica divide de_inteiro menor_igual Binary64].
    rewrite (ltb_leb_false _ _ E).
    destruct (find _ _) as [[[? ?] ?]|]; discriminate.
Qed.

Lemma medicao_positiva_witness :
  let cartao := {| rx := 10; ry := 10; w := 860; h := 540 |} in
  let c := {| centro_x := 400; centro_y := 300; raio := 95 |} in
  (exists d : Q,
      medir_diametro (Some (c, [])) [cartao] = Retorna d /\ (0 < d)%Q) /\
  analisar (A:=float) (Some (c, [])) [cartao] true
  <> Erro400 NaoFoiPossivelIdentificar.
Proof.
  intros cartao c. destruct medicao_positiva as [HQ HF]. split.
  - destruct (HQ c [] [cartao] true) as (d & H1 & H2 & _).
    + vm_compute. discriminate.
    + vm_compute. split; reflexivity.
    + exists d. split; assumption.
  - destruct (HF c [] [cartao] true) as (d & _ & _ & H3).
    + vm_compute. discriminate.
    + vm_compute. split; [reflexivity | discriminate].
    + exact H3.
Defined.

(* ================================================================== *)
(** ** The answers of [analisar] *)

(** X11.  A positive answer of [analisar] carries the diameter
    [medir_diametro] returned, which is above 0, the confidence 95.0 and a
    standard and size of the table for the bore kind asked for, whose
    reference diameter passes the tolerance test: the match [fator_decisao]
    returns for that diameter.  The standard is BSP, NPT or UNF. *)
Theorem analisar_ok (A : Type) (N : Numero A)
  (circles : option (circulo * list circulo)) (contours : list retangulo)
  (interna : bool) (norma bitola : string) (diametro_medido confianca : A) :
  analisar circles contours interna
  = Ok norma bitola diametro_medido confianca ->
  medir_diametro circles contours = Retorna diametro_medido /\
  menor_igual diametro_medido (de_inteiro 0) = false /\
  confianca = literal 95.0%Q /\
  In norma ["BSP"; "NPT"; "UNF"] /\
  exists q,
    In (norma, bitola, q) (catalogo (tipo_de interna)) /\
    qualifica diametro_medido (literal q) = true /\
    fator_decisao diametro_medido interna
    = Retorna (Some norma, Some bitola, Some (literal q), confianca,
               tipo_de interna).
Proof.
  rewrite analisar_eq.
  destruct (medir_diametro circles contours) as [v|e]; [|discriminate].
  destruct (menor_igual v (de_inteiro 0)) eqn:Ev; [discriminate|].
  destruct (find (entrada_qualifica v) (catalogo (tipo_de interna)))
    as [[[n b] q]|] eqn:E; [|discriminate].
  intros [= -> -> -> <-].
  pose proof (find_some _ _ E) as [Hin Hq].
  repeat split; try assumption.
  - clear E Hq. destruct interna; unfold tipo_de in Hin;
      [rewrite catalogo_interna in Hin | rewrite catalogo_externa in Hin];
      simpl in Hin;
      repeat (destruct Hin as [[= <- <- <-]|Hin]; [simpl; tauto|]);
      destruct Hin.
  - exists q. repeat split; [exact Hin | exact Hq |].
    rewrite fator_decisao_sem_ajuste. unfold resolvedor_sem_ajuste.
    rewrite E. reflexivity.
Qed.

Lemma analisar_ok_witness :
  let cartao := {| rx := 10; ry := 10; w := 860; h := 540 |} in
  let c := {| centro_x := 400; centro_y := 300; raio := 95 |} in
  exists d : float,
    medir_diametro (Some (c, [])) [cartao] = Retorna d /\
    In "BSP" ["BSP"; "NPT"; "UNF"] /\
    exists q,
      In ("BSP", "1/2", q) (catalogo (tipo_de true)) /\
      qualifica d (literal q) = true.
Proof.
  intros cartao c.
  exists (PrimFloat.mul (float_de_Z 190)
            (PrimFloat.div (literal 86.0%Q) (float_de_Z 860))).
  destruct (analisar_ok float Binary64 (Some (c, [])) [cartao] true
              "BSP" "1/2"
              (PrimFloat.mul (float_de_Z 190)
                 (PrimFloat.div (literal 86.0%Q) (float_de_Z 860)))
              (literal 95.0%Q))
    as (H1 & _ & _ & H4 & q & H5 & H6 & _).
  - vm_compute. reflexivity.
  - split; [exact H1|]. split; [exact H4|]. exists q. split; assumption.
Defined.

(** X12.  The two negative answers of [analisar], in any arithmetic: it
    answers that the thread could not be identified exactly when the value
    [medir_diametro] returns is 0 or below, and that there is no
    correspondence exactly when that value is above 0 and no entry of the
    table for the bore kind passes the tolerance test. *)
Theorem analisar_erros (A : Type) (N : Numero A)
  (circles : option (circulo * list circulo)) (contours : list retangulo)
  (interna : bool) :
  (analisar (A:=A) circles contours interna
   = Erro400 NaoFoiPossivelIdentificar
   <-> exists d, medir_diametro circles contours = Retorna d /\
                 menor_igual d (de_inteiro 0) = true) /\
  (analisar (A:=A) circles contours interna = Erro400 NenhumaCorrespondencia
   <-> exists d, medir_diametro circles contours = Retorna d /\
                 menor_igual d (de_inteiro 0) = false /\
                 forall entrada, In entrada (catalogo (tipo_de interna)) ->
                   entrada_qualifica d entrada = false).
Proof.
  rewrite analisar_eq.
  destruct (medir_diametro_retorna (A:=A) circles contours) as [v ->].
  destruct (menor_igual v (de_inteiro 0)) eqn:Ev.
  - split; split.
    + intros _. exists v. split; [reflexivity | exact Ev].
    + reflexivity.
    + discriminate.
    + intros (d & [= <-] & Hd & _). congruence.
  - destruct (find (entrada_qualifica v) (catalogo (tipo_de interna)))
      as [[[n b] q]|] eqn:E.
    + split; split; try discriminate.
      * intros (d & [= <-] & Hd). congruence.
      * intros (d & [= <-] & _ & Hall).
        apply find_some in E. destruct E as [Hin Hq].
        rewrite (Hall _ Hin) in Hq. discriminate.
    + split; split; try discriminate.
      * intros (d & [= <-] & Hd). congruence.
      * intros _. exists v. repeat split; [exact Ev|].
        intros entrada Hin. exact (find_none _ _ E entrada Hin).
      * reflexivity.
Qed.

Lemma analisar_erros_witness :
  let cartao := {| rx := 10; ry := 10; w := 860; h := 540 |} in
  let c := {| centro_x := 400; centro_y := 300; raio := 250 |} in
  analisar (A:=float) (Some (c, [])) [cartao] false
  = Erro400 NenhumaCorrespondencia /\
  analisar (A:=float) None [cartao] false
  = Erro400 NaoFoiPossivelIdentificar.
Proof.
  intros cartao c. split.
  - apply (proj2 (analisar_erros float Binary64 (Some (c, [])) [cartao] false)).
    exists (PrimFloat.mul (float_de_Z 500)
              (PrimFloat.div (literal 86.0%Q) (float_de_Z 860))).
    split; [vm_compute; reflexivity|]. split; [vm_compute; reflexivity|].
    apply qualificados_nil. vm_compute. reflexivity.
  - apply (proj1 (analisar_erros float Binary64 None [cartao] false)).
    exists (float_de_Z (-1)). split; vm_compute; reflexivity.
Defined.

(* ================================================================== *)
(** ** The form field and the JSON answer *)

Lemma minuscula_letras (c : ascii) :
  (minuscula c = "t"%char <-> c = "t"%char \/ c = "T"%char) /\
  (minuscula c = "r"%char <-> c = "r"%char \/ c = "R"%char) /\
  (minuscula c = "u"%char <-> c = "u"%char \/ c = "U"%char) /\
  (minuscula c = "e"%char <-> c = "e"%char \/ c = "E"%char).
Proof.
  destruct c as [[] [] [] [] [] [] [] []]; vm_compute;
    repeat split; intros H; try discriminate H;
    try (destruct H as [H|H]; discriminate H);
    try (left; reflexivity); try (right; reflexivity).
Qed.

(** X13.  The form field [interna] selects the internal table exactly when
    it is the word "true" in any mix of upper and lower case: four
    characters, t, r, u, e, each in either case.  Every other text,
    "false", "1", the empty text or "true" with a space among them, selects
    the external table. *)
Theorem e_interna_true (interna : string) :
  e_interna interna = true <->
  exists a b c d : ascii,
    interna = String a (String b (String c (String d EmptyString))) /\
    (a = "t" \/ a = "T")%char /\ (b = "r" \/ b = "R")%char /\
    (c = "u" \/ c = "U")%char /\ (d = "e" \/ d = "E")%char.
Proof.
  unfold e_interna. rewrite String.eqb_eq. split.
  - destruct interna as [|a [|b [|c [|d [|x resto]]]]]; simpl;
      try discriminate.
    intros [= Ha Hb Hc Hd]. exists a, b, c, d.
    split; [reflexivity|].
    repeat split; apply minuscula_letras; assumption.
  - intros (a & b & c & d & -> & Ha & Hb & Hc & Hd). simpl.
    apply minuscula_letras in Ha, Hb, Hc, Hd. congruence.
Qed.

Lemma e_interna_true_witness :
  e_interna "TrUe" = true /\
  exists a b c d : ascii,
    "True" = String a (String b (String c (String d EmptyString))) /\
    (a = "t" \/ a = "T")%char.
Proof.
  split.
  - apply (proj2 (e_interna_true "TrUe")).
    exists "T"%char, "r"%char, "U"%char, "e"%char.
    split; [reflexivity|]. repeat split; (left + right); reflexivity.
  - destruct (proj1 (e_interna_true "True")) as (a & b & c & d & H & Ha & _).
    + reflexivity.
    + exists a, b, c, d. split; assumption.
Defined.

Lemma confianca_formatada : formata_fixo 1 (literal 95.0%Q) = "95.0".
Proof. vm_compute. reflexivity. Qed.

(** X14.  An answer with status 200 has exactly this content: the status
    "ok", the thread kind named after the form field, the measured diameter
    with two decimals, a size and a standard, the confidence "95.0%", the
    note and the debug link.  The measured diameter is the value
    [medir_diametro] returned, above 0, and the standard and size are an
    entry of the table of the bore kind the form field selects, whose
    reference diameter passes the tolerance test, so that the thread kind
    named is the one of the table consulted. *)
Theorem analisar_http_ok (circles : option (circulo * list circulo))
  (contours : list retangulo) (interna : string)
  (conteudo : dicionario valor_json) :
  analisar_http circles contours interna = (200%Z, conteudo) ->
  exists (d : float) (norma bitola : string) (q : Q),
    medir_diametro circles contours = Retorna d /\
    PrimFloat.leb d 0 = false /\
    In (norma, bitola, q)
      (catalogo (if e_interna interna then "interna" else "externa")) /\
    qualifica d (literal q) = true /\
    conteudo
    = [("status", Texto "ok");
       ("tipo_rosca",
        Texto (if e_interna interna
               then "Rosca interna (fêmea)"
               else "Rosca externa (macho)"));
       ("diametro_medido_mm", Texto (formata_fixo 2 d));
       ("bitola", Texto bitola);
       ("norma", Texto norma);
       ("confianca", Texto "95.0%");
       ("observacao", Texto "Use cartão padrão (86 mm) como referência.");
       ("debug", Texto "/static/debug_output.png")].
Proof.
  unfold analisar_http.
  destruct (medir_diametro (A:=float) circles contours) as [d|e];
    [|discriminate].
  cbn [liga].
  destruct (menor_igual d (de_inteiro 0)) eqn:Ed; [discriminate|].
  destruct (fator_decisao d (e_interna interna))
    as [[[[[norma bitola] ref] conf] tipo]|e] eqn:Ef; [|discriminate].
  cbn [liga].
  destruct norma as [norma|]; [|discriminate].
  destruct (String.eqb norma ""); [discriminate|].
  intros [= <-].
  assert (Hb : exists b, bitola = Some b /\ exists r, ref = Some r).
  { rewrite fator_decisao_eq in Ef.
    destruct (qualificados d (tipo_de (e_interna interna)))
      as [|[[n b] r] resto]; [discriminate|].
    injection Ef as _ <- <- _ _. eauto. }
  destruct Hb as (b & -> & r & ->).
  destruct (fator_decisao_achado _ _ _ _ _ _ _ Ef)
    as (-> & -> & q & Hin & -> & Hq).
  exists d, norma, b, q.
  split; [reflexivity|]. split; [exact Ed|]. split; [exact Hin|].
  split; [exact Hq|]. rewrite confianca_formatada. reflexivity.
Qed.

Lemma analisar_http_ok_witness :
  let cartao := {| rx := 10; ry := 10; w := 860; h := 540 |} in
  let c := {| centro_x := 400; centro_y := 300; raio := 95 |} in
  fst (analisar_http (Some (c, [])) [cartao] "True") = 200%Z /\
  exists (d : float) (norma bitola : string) (q : Q),
    medir_diametro (Some (c, [])) [cartao] = Retorna d /\
    In (norma, bitola, q) (catalogo "interna") /\
    obtem (snd (analisar_http (Some (c, [])) [cartao] "True"))
      "diametro_medido_mm"
    = Retorna (Texto (formata_fixo 2 d)).
Proof.
  intros cartao c. split; [vm_compute; reflexivity|].
  destruct (analisar_http_ok (Some (c, [])) [cartao] "True"
              (snd (analisar_http (Some (c, [])) [cartao] "True")))
    as (d & norma & bitola & q & H1 & _ & H3 & _ & H5).
  - vm_compute. reflexivity.
  - exists d, norma, bitola, q. split; [exact H1|]. split; [exact H3|].
    rewrite H5. reflexivity.
Defined.

(** X16.  On the values the image processing found the answer has status
    200 or 400, never 500.  It is 400 with the text that the thread could
    not be identified exactly in the case that the value [medir_diametro]
    returns is 0 or below, and 400 with the text that there is no
    correspondence in the case that the value is above 0 and no entry of
    the table the form field selects passes the tolerance test; both carry
    the debug link. *)
Theorem analisar_http_respostas (circles : option (circulo * list circulo))
  (contours : list retangulo) (interna : string) :
  exists d : float,
    medir_diametro circles contours = Retorna d /\
    (PrimFloat.leb d 0 = true /\
     analisar_http circles contours interna
     = (400%Z,
        [("erro", Texto "Não foi possível identificar a rosca");
         ("debug", Texto "/static/debug_output.png")])
     \/
     PrimFloat.leb d 0 = false /\
     (forall entrada,
         In entrada (catalogo (tipo_de (e_interna interna))) ->
         entrada_qualifica d entrada = false) /\
     analisar_http circles contours interna
     = (400%Z,
        [("erro", Texto "Nenhuma correspondência encontrada");
         ("debug", Texto "/static/debug_output.png")])
     \/
     PrimFloat.leb d 0 = false /\
     (exists entrada,
         In entrada (catalogo (tipo_de (e_interna interna))) /\
         entrada_qualifica d entrada = true) /\
     fst (analisar_http circles contours interna) = 200%Z).
Proof.
  destruct (medir_diametro_retorna (A:=float) circles contours) as [d Hd].
  exists d. split; [exact Hd|].
  unfold analisar_http. rewrite Hd. cbn [liga].
  change (menor_igual d (de_inteiro 0)) with (PrimFloat.leb d 0).
  destruct (PrimFloat.leb d 0) eqn:Ed; [left; split; reflexivity|].
  right. rewrite fator_decisao_sem_ajuste. unfold resolvedor_sem_ajuste.
  destruct (find (entrada_qualifica d) (catalogo (tipo_de (e_interna interna))))
    as [[[norma bitola] ref]|] eqn:E.
  - right. split; [reflexivity|]. apply find_some in E.
    destruct E as [Hin Hq]. split; [exists (norma, bitola, ref); tauto|].
    cbn [liga].
    rewrite (norma_nao_vazia _ _ Hin : String.eqb norma "" = false).
    reflexivity.
  - left. split; [reflexivity|]. split; [|reflexivity].
    intros entrada Hin. exact (find_none _ _ E entrada Hin).
Qed.

Lemma arredonda_perto (q : Q) :
  (Qabs (inject_Z (arredonda q) - q) <= 1 # 2)%Q.
Proof.
  unfold arredonda. pose proof (Qfloor_le q) as H1.
  pose proof (Qlt_floor q) as H2. rewrite inject_Z_plus in H2.
  change (inject_Z 1) with 1%Q in H2.
  apply Qabs_Qle_condition.
  destruct (Qcompare_spec (q - inject_Z (Qfloor q)) (1 # 2)) as [E|E|E].
  - destruct (Z.even (Qfloor q)).
    + split; lra.
    + rewrite inject_Z_plus. change (inject_Z 1) with 1%Q. split; lra.
  - split; lra.
  - rewrite inject_Z_plus. change (inject_Z 1) with 1%Q. split; lra.
Qed.

Lemma arredonda_nao_negativo (q : Q) : (0 <= q)%Q -> (0 <= arredonda q)%Z.
Proof.
  intros H. unfold arredonda.
  assert (H0 : (0 <= Qfloor q)%Z).
  { rewrite <- (Qfloor_Z 0). apply Qfloor_resp_le. exact H. }
  destruct (_ ?= _)%Q; [destruct (Z.even _)| |]; lia.
Qed.

Lemma valor_finito_nao_negativo (m : positive) (e : Z) :
  (0 <= valor_finito m e)%Q.
Proof.
  unfold valor_finito. apply Qmult_le_0_compat.
  - change 0%Q with (inject_Z 0). rewrite <- Zle_Qle. lia.
  - apply Qpower_0_le. discriminate.
Qed.

Lemma duas_casas : duas_casas_confere (faixa 100 0) = true.
Proof. vm_compute. reflexivity. Qed.

(** X15.  The text of a positive finite diameter, as
    ["diametro_medido_mm"] carries it, is an integer part, a point and
    exactly two digits, and the number it denotes is at most 0.005 away
    from the diameter. *)
Theorem formata_fixo_duas_casas (x : float) (m : positive) (e : Z) :
  Prim2SF x = S754_finite false m e ->
  exists inteiro fracao : Z,
    (0 <= inteiro)%Z /\ (0 <= fracao < 100)%Z /\
    formata_fixo 2 x
    = (digitos inteiro ++ "." ++ preenche 2 (digitos fracao))%string /\
    String.length (preenche 2 (digitos fracao)) = 2%nat /\
    (Qabs (inject_Z inteiro + inject_Z fracao / 100 - valor_finito m e)
     <= 1 # 200)%Q.
Proof.
  intros Hx. unfold formata_fixo. rewrite Hx.
  set (q := valor_finito m e).
  set (n := arredonda (q * inject_Z (10 ^ Z.of_nat 2))).
  assert (Hn : (0 <= n)%Z).
  { apply arredonda_nao_negativo. apply Qmult_le_0_compat.
    - apply valor_finito_nao_negativo.
    - discriminate. }
  exists (n / 100)%Z, (n mod 100)%Z.
  split; [apply Z.div_pos; lia|].
  split; [apply Z.mod_pos_bound; lia|].
  split; [reflexivity|].
  split.
  - pose proof duas_casas as H. unfold duas_casas_confere in H.
    rewrite forallb_forall in H.
    apply Nat.eqb_eq, H, faixa_In.
    pose proof (Z.mod_pos_bound n 100). lia.
  - pose proof (arredonda_perto (q * inject_Z (10 ^ Z.of_nat 2))) as Hp.
    fold n in Hp. change (inject_Z (10 ^ Z.of_nat 2)) with 100%Q in Hp.
    apply Qabs_Qle_condition in Hp. apply Qabs_Qle_condition.
    assert (E : (inject_Z (n / 100) + inject_Z (n mod 100) / 100
                 == inject_Z n / 100)%Q).
    { rewrite (Z.div_mod n 100) at 3 by lia.
      rewrite inject_Z_plus, inject_Z_mult.
      change (inject_Z 100) with 100%Q. field. }
    rewrite E. fold q. clearbody n. clearbody q.
    unfold Qdiv. change (/ 100)%Q with (1 # 100)%Q. split; lra.
Qed.

Lemma formata_fixo_duas_casas_witness :
  exists inteiro fracao : Z,
    formata_fixo 2 19%float
    = (digitos inteiro ++ "." ++ preenche 2 (digitos fracao))%string /\
    String.length (preenche 2 (digitos fracao)) = 2%nat.
Proof.
  destruct (formata_fixo_duas_casas 19%float 5348024557502464 (-48))
    as (inteiro & fracao & _ & _ & H1 & H2 & _).
  - reflexivity.
  - exists inteiro, fracao. split; assumption.
Defined.
